(** * generate_source_tree.py: the source-tree report generator

    A shallow embedding of [warchief_game/scripts/generate_source_tree.py]
    and the properties its specification states about it.

    Modelling conventions.
    - Python [str] values that are file names are [string]s of ASCII
      characters; [str.lower] maps the letters [A]-[Z] and leaves every
      other character as it is; strings compare character by character.
    - Python [int]s are [Z].
    - A [pathlib.Path] is the list of the components of an absolute path
      (the anchor is implicit), so the filesystem root is [[]].
    - The filesystem below the scanned path is a finite tree [entry] (no
      loop of symbolic links); the results of the system calls the script
      makes on it ([stat], opening and reading a file, listing a directory)
      are stored in the tree, a failing call as [None].  [is_file()] and
      [is_dir()] answer by the shape of the entry, and raise on an entry
      [Denied], where [stat] is refused.
    - Exceptions are explicit: a computation that may raise returns an
      [outcome].
    - [main] is modelled from the resolved root on, with the outcomes of
      creating the output directory and of writing the report; parsing the
      command line and the lines printed are left out.
      [find_project_root] is modelled on its own, over a predicate that
      tells which paths exist.
    - The depth of the recursion is not bounded. *)

From Stdlib Require Import ZArith NArith List String Ascii Bool Lia.
From Stdlib Require Import Permutation Sorted RelationClasses.
From Stdlib Require OrderedTypeEx.
Import ListNotations.

Local Open Scope string_scope.
Local Open Scope Z_scope.
Local Open Scope list_scope.

(* ================================================================== *)
(** ** Exceptions *)

Inductive exn : Type :=
| OSError      (* the operating system refused or failed a call *)
| ValueError.  (* [relative_to] on a path that is not below the other *)

Inductive outcome (A : Type) : Type :=
| Ret (a : A)
| Raise (e : exn).

Arguments Ret {A} a.
Arguments Raise {A} e.

Definition bind {A B : Type} (m : outcome A) (k : A -> outcome B) : outcome B :=
  match m with
  | Ret a => k a
  | Raise e => Raise e
  end.

Notation "x <- m ;; k" := (bind m (fun x => k))
  (at level 61, m at next level, right associativity).

(** [try: m  except OSError: d] *)
Definition try_except_OSError {A : Type} (m : outcome A) (d : A) : outcome A :=
  match m with
  | Ret a => Ret a
  | Raise OSError => Ret d
  | Raise e => Raise e
  end.

(** [try: m  except Exception: d]; every modelled exception is an
    [Exception]. *)
Definition try_except_Exception {A : Type} (m : outcome A) (d : A) : outcome A :=
  match m with
  | Ret a => Ret a
  | Raise _ => Ret d
  end.

(* ================================================================== *)
(** ** Strings: [str.lower], [str.startswith], [str.rfind] *)

Definition lower_char (c : ascii) : ascii :=
  let n := N_of_ascii c in
  if ((65 <=? n) && (n <=? 90))%N then ascii_of_N (n + 32) else c.

Fixpoint lower (s : string) : string :=
  match s with
  | EmptyString => EmptyString
  | String c r => String (lower_char c) (lower r)
  end.

Definition startswith (s p : string) : bool := String.prefix p s.

Definition len (s : string) : Z := Z.of_nat (String.length s).

(** [s.rfind(c)] when [s] starts at index [i] of the whole string: the
    highest index of [c], or [-1]. *)
Fixpoint rfind_from (c : ascii) (s : string) (i : Z) : Z :=
  match s with
  | EmptyString => -1
  | String a r =>
      let k := rfind_from c r (i + 1) in
      if 0 <=? k then k else if Ascii.eqb a c then i else -1
  end.

Definition rfind (c : ascii) (s : string) : Z := rfind_from c s 0.

(** [s[i:]] for [0 <= i]. *)
Definition slice_from (i : Z) (s : string) : string :=
  String.substring (Z.to_nat i) (String.length s - Z.to_nat i) s.

(** Membership in a set literal of strings. *)
Definition mem (x : string) (s : list string) : bool :=
  existsb (String.eqb x) s.

(* ================================================================== *)
(** ** pathlib *)

Definition path := list string.

(** [p.name]: the last component, [''] for the filesystem root. *)
Definition path_name (p : path) : string := last p "".

(** [p.parent]; the parent of the filesystem root is itself. *)
Definition parent (p : path) : path := removelast p.

(** [p / n] *)
Definition joinpath (p : path) (n : string) : path := p ++ [n].

(** [PurePath.suffix] of a final component (CPython 3.12):
    [i = name.rfind('.')], the suffix is [name[i:]] when
    [0 < i < len(name) - 1] and [''] otherwise. *)
Definition suffix_of_name (name : string) : string :=
  let i := rfind "."%char name in
  if (0 <? i) && (i <? len name - 1) then slice_from i name else "".

Definition suffix (p : path) : string := suffix_of_name (path_name p).

Fixpoint strip_prefix (q p : path) : option path :=
  match q with
  | [] => Some p
  | a :: q' =>
      match p with
      | [] => None
      | b :: p' => if String.eqb a b then strip_prefix q' p' else None
      end
  end.

(** [p.relative_to(q)]: raises [ValueError] when [p] is not below [q]. *)
Definition relative_to (p q : path) : outcome path :=
  match strip_prefix q p with
  | Some r => Ret r
  | None => Raise ValueError
  end.

(** [str] of a relative path: the components joined by ['/'], ['.'] for the
    empty path. *)
Definition str_path (p : path) : string :=
  match p with
  | [] => "."
  | _ => String.concat "/" p
  end.

(** [str] of an absolute path. *)
Definition str_abs (p : path) : string := ("/" ++ String.concat "/" p)%string.

(* ================================================================== *)
(** ** The fixed tables *)

Definition EXCLUDE_DIRS : list string :=
  [ ".git"; ".dart_tool"; ".idea"; "build"; "node_modules";
    "__pycache__"; ".venv"; "venv"; ".gradle"; ".pub-cache";
    "coverage"; ".flutter-plugins"; "android"; "ios"; "linux";
    "macos"; "windows"; "ephemeral" ].

Definition EXCLUDE_FILES : list string :=
  [ ".DS_Store"; "Thumbs.db"; ".flutter-plugins";
    ".flutter-plugins-dependencies"; "pubspec.lock";
    ".packages"; ".metadata" ].

Definition LINE_COUNT_EXTENSIONS : list string :=
  [ ".dart"; ".py"; ".js"; ".ts"; ".html"; ".css"; ".scss";
    ".json"; ".yaml"; ".yml"; ".md"; ".txt"; ".sh"; ".xml";
    ".gradle"; ".toml"; ".mojo" ].

Definition LINE_COUNT_FILES : list string :=
  [ "Makefile"; "Dockerfile"; "CLAUDE.md"; "README.md";
    "pubspec.yaml"; "analysis_options.yaml" ].

(** The set literal inside [should_exclude_file]. *)
Definition BINARY_EXTENSIONS : list string :=
  [ ".pyc"; ".pyo"; ".class"; ".o"; ".so"; ".dylib"; ".exe" ].

(** An icon is a one-character string; it is represented by its code
    point. *)
Definition icon := N.

Definition FILE_ICONS : list (string * icon) :=
  [ (".dart", 0x1F3AF); (".py", 0x1F40D); (".mojo", 0x1F525);
    (".js", 0x1F4C4); (".ts", 0x1F4C4); (".html", 0x1F310);
    (".css", 0x1F3A8); (".scss", 0x1F3A8); (".json", 0x1F4CB);
    (".yaml", 0x1F4CB); (".yml", 0x1F4CB); (".md", 0x1F4DD);
    (".sh", 0x2328); (".xml", 0x1F4C4); (".svg", 0x1F5BC);
    (".png", 0x1F5BC); (".jpg", 0x1F5BC); (".gif", 0x1F5BC) ]%N.

(** [d.get(k, default)] *)
Fixpoint dict_get {V : Type} (d : list (string * V)) (k : string) (default : V) : V :=
  match d with
  | [] => default
  | (k', v) :: r => if String.eqb k k' then v else dict_get r k default
  end.

(* ================================================================== *)
(** ** The policies *)

Definition should_exclude_dir (name : string) : bool :=
  mem name EXCLUDE_DIRS || startswith name ".".

Definition should_exclude_file (name : string) : bool :=
  if mem name EXCLUDE_FILES then true
  else
    let ext := lower (suffix_of_name name) in
    if mem ext BINARY_EXTENSIONS then true else false.

Definition should_count_lines (file_path : path) : bool :=
  if mem (path_name file_path) LINE_COUNT_FILES then true
  else mem (lower (suffix file_path)) LINE_COUNT_EXTENSIONS.

Definition get_file_icon (file_path : path) : icon :=
  let ext := lower (suffix file_path) in
  dict_get FILE_ICONS ext 0x1F4C4%N.


(* ================================================================== *)
(** ** File contents and [count_lines] *)

(** A text is the sequence of code points that
    [open(file_path, 'r', encoding='utf-8', errors='ignore')] decodes from
    the file: the invalid byte sequences are already dropped, the newline
    translation is not yet done. *)
Definition text := list N.

Definition LF : N := 10.
Definition CR : N := 13.

(** Iterating over a file opened in text mode with the default [newline]
    argument: a line ends at ['\n'], ['\r'] or ['\r\n'], each handed over as
    ['\n']; what follows the last terminator is a line of its own when it is
    not empty.  [cur] is the line read so far, in reverse. *)
Fixpoint iter_lines_from (cur : text) (t : text) : list text :=
  match t with
  | [] => match cur with [] => [] | _ => [rev cur] end
  | c :: r =>
      if (c =? LF)%N then rev (LF :: cur) :: iter_lines_from [] r
      else if (c =? CR)%N then
        match r with
        | c' :: r' =>
            if (c' =? LF)%N then rev (LF :: cur) :: iter_lines_from [] r'
            else rev (LF :: cur) :: iter_lines_from [] r
        | [] => [rev (LF :: cur)]
        end
      else iter_lines_from (c :: cur) r
  end.

Definition iter_lines (t : text) : list text := iter_lines_from [] t.

(** [sum(1 for _ in f)] *)
Definition sum_ones {A : Type} (l : list A) : Z :=
  fold_left (fun acc _ => acc + 1) l 0.

(** Opening and reading the file; [None] is a file that cannot be opened
    or read. *)
Definition open_read (content : option text) : outcome text :=
  match content with
  | Some t => Ret t
  | None => Raise OSError
  end.

Definition count_lines (content : option text) : outcome Z :=
  try_except_Exception
    (f <- open_read content;; Ret (sum_ones (iter_lines f)))
    0.

(* ================================================================== *)
(** ** The filesystem below the scanned path *)

#[local] Unset Elimination Schemes.

Inductive entry : Type :=
| File (st_size : option Z) (content : option text)
    (* a regular file, [is_file()] is true: the size [path.stat()]
       reports, [None] when that later call fails all the same; its
       decoded content, [None] when it cannot be read *)
| Dir (listing : option (list (string * entry)))
    (* a directory: the names [iterdir] lists, in the order it lists them,
       each with what is there; [None] when the listing fails *)
| Other
    (* neither: [is_file()] and [is_dir()] are both false; also a path
       that is not there *)
| Denied.
    (* a path on which [stat] fails with an error that [is_file()] and
       [is_dir()] raise again (permission denied, input/output error) *)

(** The answers of [is_file()] and [is_dir()] where they answer. *)
Definition is_file (e : entry) : bool :=
  match e with File _ _ => true | _ => false end.

Definition is_dir (e : entry) : bool :=
  match e with Dir _ => true | _ => false end.

(** The type tests raise. *)
Definition type_test_raises (e : entry) : bool :=
  match e with Denied => true | _ => false end.

(** [path.is_file()] *)
Definition path_is_file (e : entry) : outcome bool :=
  if type_test_raises e then Raise OSError else Ret (is_file e).

(** [sorted] calls its key, so [is_file()], on every listed entry before
    the loop over the children starts; a call that raises ends it. *)
Definition keys_raise (l : list (string * entry)) : bool :=
  existsb (fun nc => type_test_raises (snd nc)) l.

(** [path.stat().st_size] *)
Definition stat_size (st : option Z) : outcome Z :=
  match st with
  | Some s => Ret s
  | None => Raise OSError
  end.

(* ================================================================== *)
(** ** Nodes of the report *)

(** The two shapes of dictionary [build_tree] makes.  ['size'] and ['lines']
    are read with [dict.get] by [calculate_totals], so they are optional
    keys here; ['type'] is the constructor. *)
Inductive node : Type :=
| FileNode (name rel_path : string) (size : option Z)
           (extension : string) (icon_ : icon) (lines : option Z)
| DirNode (name rel_path : string) (children : list node).

#[local] Set Elimination Schemes.

Definition node_is_file (n : node) : bool :=
  match n with FileNode _ _ _ _ _ _ => true | DirNode _ _ _ => false end.

Definition node_name (n : node) : string :=
  match n with FileNode nm _ _ _ _ _ => nm | DirNode nm _ _ => nm end.

Definition node_path (n : node) : string :=
  match n with FileNode _ p _ _ _ _ => p | DirNode _ p _ => p end.

Definition node_children (n : node) : list node :=
  match n with FileNode _ _ _ _ _ _ => [] | DirNode _ _ ch => ch end.

(* ================================================================== *)
(** ** [sorted(..., key=...)] *)

(** The sort key [(p.is_file(), p.name.lower())]. *)
Definition key := (bool * string)%type.

(** Python's [<] on such tuples: [False < True], strings by code point. *)
Definition key_ltb (a b : key) : bool :=
  if Bool.eqb (fst a) (fst b) then String.ltb (snd a) (snd b)
  else negb (fst a) && fst b.

(** [sorted] is stable: an element goes in front of the first one that is
    not smaller than it, and the elements are inserted from the right. *)
Fixpoint insert {A : Type} (k : A -> key) (x : A) (l : list A) : list A :=
  match l with
  | [] => [x]
  | y :: r => if key_ltb (k y) (k x) then y :: insert k x r else x :: l
  end.

Fixpoint sorted {A : Type} (k : A -> key) (l : list A) : list A :=
  match l with
  | [] => []
  | x :: r => insert k x (sorted k r)
  end.

(* ================================================================== *)
(** ** [build_tree] *)

(** The loop body [child_node = build_tree(child, root_path); if child_node:
    children.append(child_node)] over the results in order; the first
    exception ends the loop. *)
Fixpoint collect (rs : list (outcome (option node))) : outcome (list node) :=
  match rs with
  | [] => Ret []
  | r :: rest =>
      child_node <- r;;
      children <- collect rest;;
      Ret (match child_node with
           | Some n => n :: children
           | None => children
           end)
  end.

(** One directory entry as the loop sees it: its name, whether it is a
    file, and what [build_tree] makes of it. *)
Definition visit := (string * bool * outcome (option node))%type.

Definition visit_key (v : visit) : key := (snd (fst v), lower (fst (fst v))).

(** [build_tree(path, root_path)] where [e] is what the filesystem has at
    [path].  The [match] is [if path.is_file(): ... elif path.is_dir(): ...],
    which raises on [Denied].  The recursion is on the filesystem tree, so
    the results for the entries of a directory are paired with the entries
    before these are sorted; [build_tree_Dir] below gives the equation in
    the order of the source. *)
Fixpoint build_tree (p root_path : path) (e : entry) {struct e}
  : outcome (option node) :=
  let name := path_name p in
  rel <- relative_to p (parent root_path);;
  let rel_path := str_path rel in
  match e with
  | File st content =>
      if should_exclude_file name then Ret None
      else
        size <- try_except_OSError (stat_size st) 0;;
        lines <- (if should_count_lines p
                  then n <- count_lines content;; Ret (Some n)
                  else Ret None);;
        Ret (Some (FileNode name rel_path (Some size)
                            (lower (suffix p)) (get_file_icon p) lines))
  | Dir listing =>
      if should_exclude_dir name then Ret None
      else
        match listing with
        | None => Raise OSError
        | Some l =>
            if keys_raise l then Raise OSError
            else
              let visits : list visit :=
                map (fun nc => (fst nc, is_file (snd nc),
                                build_tree (joinpath p (fst nc)) root_path (snd nc))) l in
              children <- collect (map snd (sorted visit_key visits));;
              match children with
              | [] => Ret None
              | _ => Ret (Some (DirNode name rel_path children))
              end
        end
  | Other => Ret None
  | Denied => Raise OSError
  end.

(* ================================================================== *)
(** ** [calculate_totals] *)

Record totals : Type := Totals
  { t_files : Z; t_directories : Z; t_lines : Z; t_size : Z }.

Definition get_default (o : option Z) (d : Z) : Z :=
  match o with Some z => z | None => d end.

(** The inner function [traverse]; the dictionary [totals] it updates is
    passed in and out. *)
Fixpoint traverse (n : node) (t : totals) : totals :=
  match n with
  | FileNode _ _ sz _ _ ln =>
      {| t_files := t_files t + 1;
         t_directories := t_directories t;
         t_lines := t_lines t + get_default ln 0;
         t_size := t_size t + get_default sz 0 |}
  | DirNode _ _ ch =>
      fold_left (fun acc child => traverse child acc) ch
        {| t_files := t_files t;
           t_directories := t_directories t + 1;
           t_lines := t_lines t;
           t_size := t_size t |}
  end.

Definition calculate_totals (tree : node) : totals :=
  traverse tree {| t_files := 0; t_directories := 0; t_lines := 0; t_size := 0 |}.

(* ================================================================== *)
(** ** [main] *)

Record report : Type := Report
  { generated_at : string;
    project_name : string;
    root : string;
    r_totals : totals;
    r_tree : node }.

(** The two calls of [main] on the output path, which may lie anywhere:
    [output_path.parent.mkdir(parents=True, exist_ok=True)] before the scan
    and [open(output_path, 'w')] with [json.dump] after it; [false] is a
    call that fails. *)
Record output_calls : Type := OutputCalls
  { mkdir_ok : bool; write_ok : bool }.

Definition mkdir_parents (out : output_calls) : outcome unit :=
  if mkdir_ok out then Ret tt else Raise OSError.

Definition write_json (out : output_calls) : outcome unit :=
  if write_ok out then Ret tt else Raise OSError.

(** [main] after the command line is read: [now] is
    [datetime.now().isoformat()], [name_arg] the [--project-name] argument,
    [root_path] the resolved root, [fs] what the filesystem has there when
    the scan runs, and [out] what becomes of the calls on the output path.
    The result is the exit status and the report written. *)
Definition main (now : string) (name_arg : option string)
           (root_path : path) (fs : entry) (out : output_calls)
  : outcome (Z * option report) :=
  let project_name :=
    match name_arg with
    | Some (String c s) => String c s
    | _ => path_name root_path
    end in
  _ <- mkdir_parents out;;
  tree <- build_tree root_path root_path fs;;
  match tree with
  | None => Ret (1, None)
  | Some tree =>
      let totals := calculate_totals tree in
      let output := {| generated_at := now;
                       project_name := project_name;
                       root := str_abs root_path;
                       r_totals := totals;
                       r_tree := tree |} in
      _ <- write_json out;;
      Ret (0, Some output)
  end.

(** Both calls on the output path succeed. *)
Definition output_written : output_calls :=
  {| mkdir_ok := true; write_ok := true |}.

(* ================================================================== *)
(** ** Vocabulary of the specification *)

(** All the nodes of a tree, the node itself first. *)
Fixpoint nodes_of (n : node) : list node :=
  match n with
  | FileNode _ _ _ _ _ _ => [n]
  | DirNode _ _ ch => n :: flat_map nodes_of ch
  end.

Definition node_size (n : node) : Z :=
  match n with FileNode _ _ sz _ _ _ => get_default sz 0 | DirNode _ _ _ => 0 end.

Definition node_lines (n : node) : Z :=
  match n with FileNode _ _ _ _ _ ln => get_default ln 0 | DirNode _ _ _ => 0 end.

Definition sumZ (l : list Z) : Z := fold_right Z.add 0 l.

Definition zero_totals : totals :=
  {| t_files := 0; t_directories := 0; t_lines := 0; t_size := 0 |}.

(** What one node adds to the totals, whenever it is visited. *)
Definition tally (t : totals) (n : node) : totals :=
  {| t_files := t_files t + (if node_is_file n then 1 else 0);
     t_directories := t_directories t + (if node_is_file n then 0 else 1);
     t_lines := t_lines t + node_lines n;
     t_size := t_size t + node_size n |}.

(** The line-count policy, on a file name. *)
Definition line_count_policy (name : string) : Prop :=
  In name LINE_COUNT_FILES \/
  In (lower (suffix_of_name name)) LINE_COUNT_EXTENSIONS.

(** [name] holds a file that is not excluded and that is reached through
    directories that are not excluded. *)
Fixpoint has_included_file (name : string) (e : entry) : bool :=
  match e with
  | File _ _ => negb (should_exclude_file name)
  | Dir (Some l) =>
      negb (should_exclude_dir name) &&
      existsb (fun nc => has_included_file (fst nc) (snd nc)) l
  | Dir None => false
  | Other => false
  | Denied => false
  end.

(** The exclusion policy on one directory entry; what is neither a file nor
    a directory is never scanned; an entry whose type cannot be tested is
    not excluded, the test comes first. *)
Definition entry_excluded (nc : string * entry) : bool :=
  match snd nc with
  | File _ _ => should_exclude_file (fst nc)
  | Dir _ => should_exclude_dir (fst nc)
  | Other => true
  | Denied => false
  end.

(** Every directory the scan enters can be listed, and the type of the
    root and of every entry of these directories can be tested. *)
Fixpoint scan_ok (name : string) (e : entry) : bool :=
  match e with
  | Dir (Some l) =>
      should_exclude_dir name || forallb (fun nc => scan_ok (fst nc) (snd nc)) l
  | Dir None => should_exclude_dir name
  | Denied => false
  | _ => true
  end.

(** The order on sort keys and the key of a node. *)
Definition key_le (a b : key) : Prop := key_ltb b a = false.

Definition node_key (n : node) : key := (node_is_file n, lower (node_name n)).

Definition name_le (a b : node) : Prop :=
  String.leb (lower (node_name a)) (lower (node_name b)) = true.

(** Directories first, then files, each group by ascending lower-cased
    name. *)
Definition dirs_then_files (ch : list node) : Prop :=
  exists ds fs,
    ch = ds ++ fs /\
    Forall (fun n => node_is_file n = false) ds /\
    Forall (fun n => node_is_file n = true) fs /\
    StronglySorted name_le ds /\
    StronglySorted name_le fs.

(** The number of line terminators of a text: ['\n'], ['\r'], and ['\r\n']
    as one. *)
Fixpoint terminators (t : text) : Z :=
  match t with
  | [] => 0
  | c :: r =>
      if (c =? LF)%N then 1 + terminators r
      else if (c =? CR)%N then
        match r with
        | c' :: r' => if (c' =? LF)%N then 1 + terminators r' else 1 + terminators r
        | [] => 1
        end
      else terminators r
  end.

Definition is_terminator (c : N) : bool := ((c =? LF) || (c =? CR))%N.

(** The text is not empty and does not end in a line terminator. *)
Definition unterminated_tail (t : text) : bool :=
  match rev t with
  | [] => false
  | c :: _ => negb (is_terminator c)
  end.

(** [tail_open b t]: something follows the last line terminator of [t];
    [b] tells whether something precedes [t]. *)
Fixpoint tail_open (b : bool) (t : text) : bool :=
  match t with
  | [] => b
  | c :: r => tail_open (negb (is_terminator c)) r
  end.

(** The key under which [build_tree] sorts a directory entry. *)
Definition entry_key (nc : string * entry) : key :=
  (is_file (snd nc), lower (fst nc)).

Definition key_eqb (a b : key) : bool :=
  Bool.eqb (fst a) (fst b) && String.eqb (snd a) (snd b).

Fixpoint keys_distinct (ks : list key) : bool :=
  match ks with
  | [] => true
  | k :: r => negb (existsb (key_eqb k) r) && keys_distinct r
  end.

(** No directory holds two entries of the same kind whose names are equal
    up to case. *)
Fixpoint distinct_keys (e : entry) : bool :=
  match e with
  | Dir (Some l) =>
      keys_distinct (map entry_key l) &&
      forallb (fun nc => distinct_keys (snd nc)) l
  | _ => true
  end.

#[local] Unset Elimination Schemes.

(** The same filesystem tree, its directories listed in another order. *)
Inductive fs_equiv : entry -> entry -> Prop :=
| fe_file st c : fs_equiv (File st c) (File st c)
| fe_other : fs_equiv Other Other
| fe_unlisted : fs_equiv (Dir None) (Dir None)
| fe_denied : fs_equiv Denied Denied
| fe_dir l1 l1' l2 :
    Forall2 (fun a b => fst a = fst b /\ fs_equiv (snd a) (snd b)) l1 l1' ->
    Permutation l1' l2 ->
    fs_equiv (Dir (Some l1)) (Dir (Some l2)).

(** The same report tree, the children of its directories in another
    order. *)
Inductive node_equiv : node -> node -> Prop :=
| ne_file nm p sz ext ic ln :
    node_equiv (FileNode nm p sz ext ic ln) (FileNode nm p sz ext ic ln)
| ne_dir nm p ch1 ch1' ch2 :
    Forall2 node_equiv ch1 ch1' ->
    Permutation ch1' ch2 ->
    node_equiv (DirNode nm p ch1) (DirNode nm p ch2).

#[local] Set Elimination Schemes.

(** Two results of [build_tree] that agree up to the order of children. *)
Definition res_equiv (r1 r2 : outcome (option node)) : Prop :=
  match r1, r2 with
  | Ret None, Ret None => True
  | Ret (Some a), Ret (Some b) => node_equiv a b
  | Raise _, Raise _ => True
  | _, _ => False
  end.

(** Totals form a commutative monoid under [add_totals]; [node_totals] is
    the sum over a tree. *)
Definition add_totals (a b : totals) : totals :=
  {| t_files := t_files a + t_files b;
     t_directories := t_directories a + t_directories b;
     t_lines := t_lines a + t_lines b;
     t_size := t_size a + t_size b |}.

Fixpoint node_totals (n : node) : totals :=
  match n with
  | FileNode _ _ sz _ _ ln =>
      {| t_files := 1; t_directories := 0;
         t_lines := get_default ln 0; t_size := get_default sz 0 |}
  | DirNode _ _ ch =>
      fold_right (fun c acc => add_totals (node_totals c) acc)
        {| t_files := 0; t_directories := 1; t_lines := 0; t_size := 0 |} ch
  end.

(** The components of [(root_path ++ rest).relative_to(root_path.parent)]. *)
Definition rel_components (root_path rest : path) : path :=
  match root_path with
  | [] => rest
  | _ => path_name root_path :: rest
  end.

(** What a result adds to [children]. *)
Definition emitted (r : outcome (option node)) : list node :=
  match r with
  | Ret (Some n) => [n]
  | _ => []
  end.

Definition returns {A : Type} (r : outcome A) : Prop := exists a, r = Ret a.

(** The loop of [build_tree] over a directory, in the order of the source:
    the entries are sorted, then visited. *)
Definition dir_children (p root_path : path) (l : list (string * entry))
  : outcome (list node) :=
  if keys_raise l then Raise OSError
  else
    collect (map (fun nc => build_tree (joinpath p (fst nc)) root_path (snd nc))
                 (sorted entry_key l)).

(** Sorted by key. *)
Definition le_by {A : Type} (k : A -> key) (x y : A) : Prop :=
  key_le (k x) (k y).

(** [reaches e rest e']: going down from [e] along the names [rest] leads
    to [e']. *)
Inductive reaches : entry -> path -> entry -> Prop :=
| reaches_here e : reaches e [] e
| reaches_down l n c rest e' :
    In (n, c) l -> reaches c rest e' ->
    reaches (Dir (Some l)) (n :: rest) e'.

(** What the loop of [build_tree] needs of a directory entry: its sort key
    and the result of [build_tree] on it. *)
Definition keyed := (key * outcome (option node))%type.

Definition keyed_of (p root_path : path) (nc : string * entry) : keyed :=
  (entry_key nc, build_tree (joinpath p (fst nc)) root_path (snd nc)).

(** Two keyed results that agree up to the order of children. *)
Definition keyed_equiv (a b : keyed) : Prop :=
  fst a = fst b /\ res_equiv (snd a) (snd b).

(** Two results of the loop over the children that are both an exception,
    or lists related by [R]. *)
Definition children_rel (R : list node -> list node -> Prop)
           (o1 o2 : outcome (list node)) : Prop :=
  match o1, o2 with
  | Ret cs1, Ret cs2 => R cs1 cs2
  | Raise _, Raise _ => True
  | _, _ => False
  end.

(** A project in which [locked] can be listed and not searched: the names
    in it are known, [stat] on them is refused. *)
Definition locked_project : entry :=
  Dir (Some [ ("README.md", File (Some 9) (Some [35; 32; 104; 105; 10]%N));
              ("locked", Dir (Some [("a.py", Denied)])) ]).

(** The result of a run with the timestamp replaced. *)
Definition retime (now : string) (res : outcome (Z * option report))
  : outcome (Z * option report) :=
  match res with
  | Ret (status, Some r) =>
      Ret (status, Some {| generated_at := now;
                           project_name := project_name r;
                           root := root r;
                           r_totals := r_totals r;
                           r_tree := r_tree r |})
  | other => other
  end.

(** A directory with two files whose names differ in case only, as two
    runs may list it. *)
Definition twins_listed_lower_first : entry :=
  Dir (Some [("a.py", File (Some 1) (Some [])); ("A.py", File (Some 2) (Some []))]).

Definition twins_listed_upper_first : entry :=
  Dir (Some [("A.py", File (Some 2) (Some [])); ("a.py", File (Some 1) (Some []))]).

(** A project with a directory that holds excluded files only. *)
Definition vanish_fs : entry :=
  Dir (Some [ ("README.md", File (Some 12) (Some [35; 10]%N));
              ("cache", Dir (Some [ ("a.pyc", File (Some 9) None);
                                    ("inner", Dir (Some [ (".DS_Store", File (Some 1) None) ])) ]));
              ("empty", Dir (Some [])) ]).

Definition vanish_tree : node :=
  DirNode "proj" "proj"
    [FileNode "README.md" "proj/README.md" (Some 12) ".md" 0x1F4DD%N (Some 1)].

(** A small project: [src/main.py] of 3 lines, [README.md] of 1 line,
    [.git/config] and [build/out.o]. *)
Definition small_project : entry :=
  Dir (Some [ ("README.md", File (Some 9) (Some [35; 32; 104; 105; 10]%N));
              (".git", Dir (Some [("config", File (Some 20) (Some [91; 93; 10]%N))]));
              ("build", Dir (Some [("out.o", File (Some 640) (Some []))]));
              ("src", Dir (Some [("main.py",
                                  File (Some 6) (Some [97; 10; 98; 10; 99; 10]%N))])) ]).

(* ================================================================== *)
(** ** [find_project_root] *)

Definition MARKERS : list string :=
  [ "pubspec.yaml"; "package.json"; "pyproject.toml"; ".git" ].

Definition path_eqb (p q : path) : bool :=
  if list_eq_dec string_dec p q then true else false.

(** [for marker in markers: if (current / marker).exists(): ...];
    [exists_] tells which paths exist. *)
Definition has_marker (exists_ : path -> bool) (current : path) : bool :=
  existsb (fun marker => exists_ (joinpath current marker)) MARKERS.

(** The loop [while current != current.parent], at most [fuel] rounds of
    it: [None] when the rounds run out, [Some None] when the loop ends at
    the filesystem root, [Some (Some current)] at the [return] inside. *)
Fixpoint find_loop (exists_ : path -> bool) (fuel : nat) (current : path)
  : option (option path) :=
  match fuel with
  | O => None
  | S fuel' =>
      if path_eqb current (parent current) then Some None
      else if has_marker exists_ current then Some (Some current)
      else find_loop exists_ fuel' (parent current)
  end.

(** [find_project_root(start_path)], on the resolved [start_path]. *)
Definition find_project_root (exists_ : path -> bool) (start_path : path)
  : path :=
  match find_loop exists_ (S (List.length start_path)) start_path with
  | Some (Some current) => current
  | _ => start_path
  end.

(* ================================================================== *)
(** ** More vocabulary: the filesystem seen from the report *)

(** Going down from a directory called [name] along [more]: no directory
    on the way is excluded, and the file at the end is not excluded. *)
Fixpoint route_included (name : string) (more : path) : bool :=
  match more with
  | [] => negb (should_exclude_file name)
  | n :: more' => negb (should_exclude_dir name) && route_included n more'
  end.

Definition result_totals (r : option node) : totals :=
  match r with
  | Some n => calculate_totals n
  | None => zero_totals
  end.

Definition one_directory : totals :=
  {| t_files := 0; t_directories := 1; t_lines := 0; t_size := 0 |}.

(** The totals read off the filesystem: the files that are not excluded,
    below directories that are not excluded, and the directories that hold
    one of them. *)
Fixpoint fs_totals (name : string) (e : entry) : totals :=
  match e with
  | File st content =>
      if should_exclude_file name then zero_totals
      else {| t_files := 1;
              t_directories := 0;
              t_lines := if should_count_lines [name]
                         then match content with
                              | Some t => sum_ones (iter_lines t)
                              | None => 0
                              end
                         else 0;
              t_size := get_default st 0 |}
  | Dir (Some l) =>
      if should_exclude_dir name then zero_totals
      else
        let below :=
          fold_right (fun nc acc => add_totals (fs_totals (fst nc) (snd nc)) acc)
                     zero_totals l in
        if t_files below =? 0 then zero_totals
        else add_totals one_directory below
  | Dir None => zero_totals
  | Other => zero_totals
  | Denied => zero_totals
  end.

(** The text with every ['\n'] written as ['\r\n']. *)
Definition to_crlf (t : text) : text :=
  flat_map (fun c => if (c =? LF)%N then [CR; LF] else [c]) t.

(** The totals of a result of [build_tree] inside the loop. *)
Definition outcome_totals (r : outcome (option node)) : totals :=
  match r with
  | Ret (Some n) => node_totals n
  | _ => zero_totals
  end.

Definition sum_totals (l : list totals) : totals :=
  fold_right add_totals zero_totals l.

(* ================================================================== *)
(** ** Induction on filesystem trees and on report trees *)

Section entry_induction.
Variable P : entry -> Prop.
Hypothesis P_File : forall st c, P (File st c).
Hypothesis P_Other : P Other.
Hypothesis P_unlisted : P (Dir None).
Hypothesis P_Denied : P Denied.
Hypothesis P_Dir :
  forall l, Forall (fun nc => P (snd nc)) l -> P (Dir (Some l)).

Fixpoint entry_ind (e : entry) : P e :=
  match e with
  | File st c => P_File st c
  | Other => P_Other
  | Dir None => P_unlisted
  | Denied => P_Denied
  | Dir (Some l) =>
      P_Dir l
        ((fix go (l : list (string * entry))
            : Forall (fun nc => P (snd nc)) l :=
            match l with
            | [] => Forall_nil _
            | nc :: r => Forall_cons nc (entry_ind (snd nc)) (go r)
            end) l)
  end.
End entry_induction.

Section node_induction.
Variable P : node -> Prop.
Hypothesis P_FileNode : forall nm p sz ext ic ln, P (FileNode nm p sz ext ic ln).
Hypothesis P_DirNode : forall nm p ch, Forall P ch -> P (DirNode nm p ch).

Fixpoint node_ind (n : node) : P n :=
  match n with
  | FileNode nm p sz ext ic ln => P_FileNode nm p sz ext ic ln
  | DirNode nm p ch =>
      P_DirNode nm p ch
        ((fix go (l : list node) : Forall P l :=
            match l with
            | [] => Forall_nil _
            | c :: r => Forall_cons c (node_ind c) (go r)
            end) ch)
  end.
End node_induction.

(* ================================================================== *)
(** ** The embedding on some inputs *)

Example suffix_main : suffix_of_name "MAIN.PY" = ".PY".
Proof. reflexivity. Qed.
Example suffix_hidden : suffix_of_name ".DS_Store" = "".
Proof. reflexivity. Qed.
Example suffix_dot_end : suffix_of_name "a." = "".
Proof. reflexivity. Qed.
Example suffix_two : suffix_of_name "a.tar.GZ" = ".GZ".
Proof. reflexivity. Qed.
Example lower_ex : lower "MAIN.PY" = "main.py".
Proof. reflexivity. Qed.

(** The scan of [small_project]: [.git] and [build] are absent, the root
    and [src] are the two directories. *)
Example scan_small_project :
  main "2026-01-01T00:00:00" None ["home"; "proj"] small_project
       output_written
  = Ret (0, Some
      {| generated_at := "2026-01-01T00:00:00";
         project_name := "proj";
         root := "/home/proj";
         r_totals := {| t_files := 2; t_directories := 2;
                        t_lines := 4; t_size := 15 |};
         r_tree :=
           DirNode "proj" "proj"
             [DirNode "src" "proj/src"
                [FileNode "main.py" "proj/src/main.py" (Some 6) ".py"
                   0x1F40D%N (Some 3)];
              FileNode "README.md" "proj/README.md" (Some 9) ".md"
                0x1F4DD%N (Some 1)] |}).
Proof. reflexivity. Qed.

(* ================================================================== *)
(** ** The order on sort keys *)

Module KeyOrder.

Lemma string_ltb_irrefl s : String.ltb s s = false.
Proof.
  unfold String.ltb.
  assert (H : String.compare s s = Eq) by (apply OrderedTypeEx.String_as_OT.cmp_eq; reflexivity).
  now rewrite H.
Qed.

Lemma string_ltb_trans a b c :
  String.ltb a b = true -> String.ltb b c = true -> String.ltb a c = true.
Proof.
  unfold String.ltb.
  destruct (String.compare a b) eqn:Hab; try discriminate.
  destruct (String.compare b c) eqn:Hbc; try discriminate.
  intros _ _.
  apply OrderedTypeEx.String_as_OT.cmp_lt in Hab, Hbc.
  assert (Hac : String.compare a c = Lt)
    by (apply OrderedTypeEx.String_as_OT.cmp_lt; eapply OrderedTypeEx.String_as_OT.lt_trans; eauto).
  now rewrite Hac.
Qed.

Lemma string_trichotomy a b :
  String.ltb a b = false -> String.ltb b a = false -> a = b.
Proof.
  unfold String.ltb. rewrite (String.compare_antisym b a).
  destruct (String.compare a b) eqn:Hab; simpl; intros H1 H2;
    try discriminate.
  now apply String.compare_eq_iff.
Qed.

Lemma string_leb_ltb a b : String.leb a b = negb (String.ltb b a).
Proof.
  unfold String.leb, String.ltb. rewrite (String.compare_antisym b a).
  now destruct (String.compare a b).
Qed.

Lemma irrefl a : key_ltb a a = false.
Proof.
  unfold key_ltb. rewrite Bool.eqb_reflx. apply string_ltb_irrefl.
Qed.

Lemma trans a b c :
  key_ltb a b = true -> key_ltb b c = true -> key_ltb a c = true.
Proof.
  destruct a as [fa na], b as [fb nb], c as [fc nc]. unfold key_ltb; simpl.
  destruct fa, fb, fc; simpl; intros H1 H2; try discriminate;
    eauto using string_ltb_trans.
Qed.

Lemma trichotomy a b :
  key_ltb a b = false -> key_ltb b a = false -> a = b.
Proof.
  destruct a as [fa na], b as [fb nb]. unfold key_ltb; simpl.
  destruct fa, fb; simpl; intros H1 H2; try discriminate;
    f_equal; now apply string_trichotomy.
Qed.

Lemma asym a b : key_ltb a b = true -> key_ltb b a = false.
Proof.
  intros H. destruct (key_ltb b a) eqn:E; [|reflexivity].
  pose proof (trans _ _ _ H E) as C. now rewrite irrefl in C.
Qed.

Lemma le_refl a : key_le a a.
Proof. apply irrefl. Qed.

Lemma le_trans a b c : key_le a b -> key_le b c -> key_le a c.
Proof.
  unfold key_le. intros Hba Hcb.
  destruct (key_ltb c a) eqn:Hca; [|reflexivity].
  destruct (key_ltb b c) eqn:Hbc.
  - pose proof (trans _ _ _ Hbc Hca) as C. congruence.
  - pose proof (trichotomy _ _ Hbc Hcb). subst. congruence.
Qed.

Lemma lt_le a b : key_ltb a b = true -> key_le a b.
Proof. apply asym. Qed.

Lemma eqb_eq a b : key_eqb a b = true <-> a = b.
Proof.
  destruct a as [fa na], b as [fb nb]. unfold key_eqb; simpl.
  rewrite andb_true_iff, Bool.eqb_true_iff, String.eqb_eq.
  split; [intros []; congruence | intros [= -> ->]; auto].
Qed.

End KeyOrder.

(* ================================================================== *)
(** ** [sorted]: a stable sort *)

Section Sorted.
Context {A : Type} (k : A -> key).

Lemma insert_perm x l : Permutation (insert k x l) (x :: l).
Proof.
  induction l as [|y r IH]; simpl; [reflexivity|].
  destruct (key_ltb (k y) (k x)); [|reflexivity].
  rewrite IH. apply perm_swap.
Qed.

Lemma sorted_perm l : Permutation (sorted k l) l.
Proof.
  induction l as [|x r IH]; simpl; [reflexivity|].
  rewrite insert_perm. now constructor.
Qed.

Lemma sorted_In x l : In x (sorted k l) <-> In x l.
Proof.
  split; apply Permutation_in; [|symmetry]; apply sorted_perm.
Qed.

Lemma insert_sorted x l :
  StronglySorted (le_by k) l -> StronglySorted (le_by k) (insert k x l).
Proof.
  induction 1 as [|y r Hr IH Hy]; simpl.
  - repeat constructor.
  - destruct (key_ltb (k y) (k x)) eqn:E.
    + constructor; [exact IH|].
      eapply Permutation_Forall; [symmetry; apply insert_perm|].
      constructor; [now apply KeyOrder.lt_le | exact Hy].
    + constructor; [now constructor|].
      constructor; [exact E|].
      eapply Forall_impl; [|exact Hy].
      intros z Hz. eapply KeyOrder.le_trans; [exact E | exact Hz].
Qed.

Lemma sorted_sorted l : StronglySorted (le_by k) (sorted k l).
Proof.
  induction l; simpl; [constructor | now apply insert_sorted].
Qed.

(** Inserting in front of elements that are not smaller. *)
Lemma insert_head x l :
  Forall (fun y => key_ltb (k y) (k x) = false) l -> insert k x l = x :: l.
Proof.
  destruct l as [|y r]; simpl; [reflexivity|].
  intros H. inversion_clear H as [|? ? Hy _]. now rewrite Hy.
Qed.

(** A list that is sorted already stays as it is. *)
Lemma sorted_id l : StronglySorted (le_by k) l -> sorted k l = l.
Proof.
  induction 1 as [|x r Hr IH Hx]; simpl; [reflexivity|].
  rewrite IH. apply insert_head.
  eapply Forall_impl; [|exact Hx]. intros y Hy. exact Hy.
Qed.
End Sorted.

(** Sorting commutes with a map that keeps the keys. *)
Lemma sorted_map {A B : Type} (k : A -> key) (k' : B -> key) (f : A -> B) l :
  (forall x, k' (f x) = k x) ->
  sorted k' (map f l) = map f (sorted k l).
Proof.
  intros Hk.
  assert (Hi : forall x s, insert k' (f x) (map f s) = map f (insert k x s)).
  { intros x s. induction s as [|y r IH]; simpl; [reflexivity|].
    rewrite !Hk. destruct (key_ltb (k y) (k x)); simpl; [now rewrite IH | reflexivity]. }
  induction l as [|x r IH]; simpl; [reflexivity|].
  now rewrite IH, Hi.
Qed.

(* ================================================================== *)
(** ** Paths below the root *)

Lemma strip_prefix_app q r : strip_prefix q (q ++ r) = Some r.
Proof.
  induction q as [|a q IH]; simpl; [reflexivity|].
  now rewrite String.eqb_refl.
Qed.

Lemma relative_to_below root_path rest :
  relative_to (root_path ++ rest) (parent root_path)
  = Ret (rel_components root_path rest).
Proof.
  unfold relative_to, parent, rel_components, path_name.
  destruct root_path as [|a r]; [reflexivity|].
  assert (Hne : a :: r <> []) by discriminate.
  set (q := removelast (a :: r)).
  replace ((a :: r) ++ rest) with (q ++ (last (a :: r) "" :: rest)).
  - now rewrite strip_prefix_app.
  - rewrite (app_removelast_last "" Hne) at 2.
    fold q. now rewrite <- app_assoc.
Qed.

Lemma path_name_join p n : path_name (joinpath p n) = n.
Proof. unfold path_name, joinpath. apply last_last. Qed.

Lemma join_below root_path rest n :
  joinpath (root_path ++ rest) n = root_path ++ (rest ++ [n]).
Proof. unfold joinpath. now rewrite app_assoc. Qed.

(* ================================================================== *)
(** ** The loop over the children *)

Lemma collect_Ret rs cs :
  collect rs = Ret cs <-> Forall returns rs /\ cs = flat_map emitted rs.
Proof.
  revert cs. induction rs as [|r rest IH]; intros cs; simpl.
  - split; [intros [= <-]; auto | intros [_ ->]; reflexivity].
  - destruct r as [o|e]; simpl.
    + destruct (collect rest) as [cs'|e'] eqn:E; simpl.
      * destruct (proj1 (IH cs') eq_refl) as [Hr ->].
        split.
        -- intros [= <-]. split; [constructor; [now exists o | exact Hr]|].
           now destruct o.
        -- intros [_ ->]. now destruct o.
      * split; [discriminate|].
        intros [Hr _]. inversion_clear Hr as [|? ? _ Hr'].
        discriminate (proj2 (IH _) (conj Hr' eq_refl)).
    + split; [discriminate|].
      intros [Hr _]. inversion_clear Hr as [|? ? [a Ha] _]. discriminate.
Qed.

Lemma in_emitted c r : In c (emitted r) <-> r = Ret (Some c).
Proof.
  destruct r as [[n|]|e]; simpl; split; try tauto; try discriminate.
  - intros [->|[]]. reflexivity.
  - intros [= ->]. now left.
Qed.

Lemma collect_In rs cs c :
  collect rs = Ret cs -> (In c cs <-> In (Ret (Some c)) rs).
Proof.
  intros H. apply collect_Ret in H as [_ ->].
  rewrite in_flat_map. split.
  - intros [r [Hr Hc]]. apply in_emitted in Hc. now subst.
  - intros Hr. exists (Ret (Some c)). split; [exact Hr | now left].
Qed.

(* ================================================================== *)
(** ** The equations of [build_tree] *)

Lemma build_tree_Other root_path rest :
  build_tree (root_path ++ rest) root_path Other = Ret None.
Proof. simpl. now rewrite relative_to_below. Qed.

Lemma build_tree_Denied root_path rest :
  build_tree (root_path ++ rest) root_path Denied = Raise OSError.
Proof. simpl. now rewrite relative_to_below. Qed.

Lemma build_tree_File root_path rest st content :
  let p := root_path ++ rest in
  build_tree p root_path (File st content) =
  if should_exclude_file (path_name p) then Ret None
  else Ret (Some (FileNode (path_name p)
                    (str_path (rel_components root_path rest))
                    (Some (get_default st 0))
                    (lower (suffix p)) (get_file_icon p)
                    (if should_count_lines p
                     then Some (match content with
                                | Some t => sum_ones (iter_lines t)
                                | None => 0
                                end)
                     else None))).
Proof.
  simpl. rewrite relative_to_below. simpl.
  destruct (should_exclude_file _); [reflexivity|].
  destruct st as [s|]; simpl;
    destruct (should_count_lines _); simpl; try reflexivity;
    destruct content; reflexivity.
Qed.

Lemma build_tree_unlisted root_path rest :
  let p := root_path ++ rest in
  build_tree p root_path (Dir None) =
  if should_exclude_dir (path_name p) then Ret None else Raise OSError.
Proof. simpl. now rewrite relative_to_below. Qed.

(** A directory, in the order of the source: [sorted(path.iterdir(), ...)]
    first, [build_tree] on each child then. *)
Lemma build_tree_Dir root_path rest l :
  let p := root_path ++ rest in
  build_tree p root_path (Dir (Some l)) =
  if should_exclude_dir (path_name p) then Ret None
  else
    children <- dir_children p root_path l;;
    match children with
    | [] => Ret None
    | _ => Ret (Some (DirNode (path_name p)
                        (str_path (rel_components root_path rest)) children))
    end.
Proof.
  simpl. rewrite relative_to_below. simpl.
  destruct (should_exclude_dir _); [reflexivity|].
  unfold dir_children. destruct (keys_raise l); [reflexivity|].
  rewrite (@sorted_map _ _ entry_key visit_key) by reflexivity.
  now rewrite map_map.
Qed.

Lemma dir_children_collect p root_path l children :
  dir_children p root_path l = Ret children ->
  keys_raise l = false /\
  collect (map (fun nc => build_tree (joinpath p (fst nc)) root_path (snd nc))
               (sorted entry_key l)) = Ret children.
Proof.
  unfold dir_children. destruct (keys_raise l); [discriminate | auto].
Qed.

Lemma build_tree_not_below p root_path e :
  strip_prefix (parent root_path) p = None ->
  build_tree p root_path e = Raise ValueError.
Proof.
  intros H. destruct e; simpl; unfold relative_to; now rewrite H.
Qed.

(* ================================================================== *)
(** ** [calculate_totals] is a sum over the nodes *)

Lemma totals_eq a b :
  t_files a = t_files b -> t_directories a = t_directories b ->
  t_lines a = t_lines b -> t_size a = t_size b -> a = b.
Proof. destruct a, b; simpl; congruence. Qed.

Lemma traverse_children_tally ch :
  Forall (fun c => forall t, traverse c t = fold_left tally (nodes_of c) t) ch ->
  forall t,
    fold_left (fun acc child => traverse child acc) ch t
    = fold_left tally (flat_map nodes_of ch) t.
Proof.
  induction 1 as [|c r Hc _ IH]; intros t; simpl; [reflexivity|].
  now rewrite fold_left_app, <- Hc, IH.
Qed.

Lemma traverse_tally n : forall t, traverse n t = fold_left tally (nodes_of n) t.
Proof.
  induction n as [nm p sz ext ic ln | nm p ch IH] using node_ind; intros t.
  - simpl. apply totals_eq; simpl; lia.
  - simpl. rewrite (traverse_children_tally _ IH). f_equal.
    apply totals_eq; simpl; lia.
Qed.

Lemma tally_comm t a b : tally (tally t a) b = tally (tally t b) a.
Proof. apply totals_eq; simpl; lia. Qed.

Lemma tally_perm l1 l2 :
  Permutation l1 l2 -> forall t, fold_left tally l1 t = fold_left tally l2 t.
Proof.
  induction 1 as [|x l l' _ IH|x y l|l l' l'' _ IH1 _ IH2]; intros t; simpl.
  - reflexivity.
  - apply IH.
  - now rewrite tally_comm.
  - now rewrite IH1.
Qed.

Lemma tally_sums l : forall t,
  fold_left tally l t =
  {| t_files := t_files t + Z.of_nat (List.length (filter node_is_file l));
     t_directories :=
       t_directories t
       + Z.of_nat (List.length (filter (fun n => negb (node_is_file n)) l));
     t_lines := t_lines t + sumZ (map node_lines (filter node_is_file l));
     t_size := t_size t + sumZ (map node_size (filter node_is_file l)) |}.
Proof.
  induction l as [|n r IH]; intros t.
  - simpl. apply totals_eq; simpl; lia.
  - cbn [fold_left]. rewrite IH.
    destruct n; apply totals_eq; cbn -[Z.of_nat Z.add]; unfold sumZ;
      rewrite ?Nat2Z.inj_succ; lia.
Qed.

(** C1. The totals of a tree are the number of its file nodes, the number
    of its directory nodes, and the sums of the [size] and of the [lines]
    fields of its file nodes, an absent field counting as 0; visiting the
    nodes in any other order gives the same totals. *)
Theorem calculate_totals_sums (tree : node) :
  let nodes := nodes_of tree in
  let files := filter node_is_file nodes in
  let dirs := filter (fun n => negb (node_is_file n)) nodes in
  t_files (calculate_totals tree) = Z.of_nat (List.length files) /\
  t_directories (calculate_totals tree) = Z.of_nat (List.length dirs) /\
  t_size (calculate_totals tree) = sumZ (map node_size files) /\
  t_lines (calculate_totals tree) = sumZ (map node_lines files) /\
  forall order,
    Permutation order nodes ->
    fold_left tally order zero_totals = calculate_totals tree.
Proof.
  intros nodes files dirs. unfold calculate_totals.
  rewrite traverse_tally. fold zero_totals. fold nodes.
  repeat split; try (rewrite tally_sums; reflexivity).
  intros order Hp. now apply tally_perm.
Qed.

Lemma calculate_totals_sums_witness :
  let a := FileNode "a.py" "r/a.py" (Some 10) ".py" 0x1F40D%N (Some 2) in
  let b := FileNode "b.bin" "r/b.bin" (Some 5) ".bin" 0x1F4C4%N None in
  let r := DirNode "r" "r" [a; b] in
  fold_left tally [b; a; r] zero_totals = calculate_totals r.
Proof.
  intros a b r.
  apply (proj2 (proj2 (proj2 (proj2 (calculate_totals_sums r))))).
  apply (Permutation_rev [b; a; r]).
Defined.

(* ================================================================== *)
(** ** What [build_tree] emits *)

Lemma dir_children_In root_path rest l children :
  dir_children (root_path ++ rest) root_path l = Ret children ->
  forall c,
    In c children <->
    exists nc, In nc l /\
      build_tree (root_path ++ (rest ++ [fst nc])) root_path (snd nc) = Ret (Some c).
Proof.
  intros H c. apply dir_children_collect in H as [_ H].
  rewrite (collect_In _ _ c H), in_map_iff.
  split; intros [nc Hnc]; exists nc.
  - destruct Hnc as [Hg Hin]. rewrite sorted_In in Hin.
    now rewrite <- join_below.
  - destruct Hnc as [Hin Hg]. rewrite sorted_In.
    now rewrite join_below.
Qed.

Lemma build_tree_Dir_Some root_path rest l t :
  let p := root_path ++ rest in
  build_tree p root_path (Dir (Some l)) = Ret (Some t) ->
  exists children,
    dir_children p root_path l = Ret children /\
    children <> [] /\
    should_exclude_dir (path_name p) = false /\
    t = DirNode (path_name p) (str_path (rel_components root_path rest)) children.
Proof.
  intros p. unfold p. rewrite build_tree_Dir.
  destruct (should_exclude_dir _); [discriminate|].
  destruct (dir_children _ _ _) as [children|e]; simpl; [|discriminate].
  destruct children as [|c r]; [discriminate|].
  intros [= <-]. exists (c :: r). repeat split. discriminate.
Qed.

(** The node made for a path has the name and the kind of what is there,
    and its path is the path relative to the parent of the root. *)
Lemma build_tree_node root_path rest e n :
  let p := root_path ++ rest in
  build_tree p root_path e = Ret (Some n) ->
  node_name n = path_name p /\
  node_path n = str_path (rel_components root_path rest) /\
  node_is_file n = is_file e.
Proof.
  intros p. unfold p. destruct e as [st c|[l|]| |].
  - rewrite build_tree_File. destruct (should_exclude_file _); [discriminate|].
    intros [= <-]. auto.
  - intros H. apply build_tree_Dir_Some in H as (ch & _ & _ & _ & ->). auto.
  - rewrite build_tree_unlisted. destruct (should_exclude_dir _); discriminate.
  - rewrite build_tree_Other. discriminate.
  - rewrite build_tree_Denied. discriminate.
Qed.

(** Every node of an emitted tree is what [build_tree] makes of an entry
    further down. *)
Lemma emitted_subtree root_path e :
  forall rest t,
    build_tree (root_path ++ rest) root_path e = Ret (Some t) ->
    forall n, In n (nodes_of t) ->
    exists more e',
      reaches e more e' /\
      build_tree (root_path ++ (rest ++ more)) root_path e' = Ret (Some n).
Proof.
  induction e as [st c| | | |l IH] using entry_ind; intros rest t H n Hn.
  - assert (Hk := H). rewrite build_tree_File in Hk.
    destruct (should_exclude_file _); [discriminate|].
    injection Hk as <-. destruct Hn as [<-|[]].
    exists [], (File st c). rewrite app_nil_r. split; [constructor | exact H].
  - rewrite build_tree_Other in H. discriminate.
  - rewrite build_tree_unlisted in H.
    destruct (should_exclude_dir _); discriminate.
  - rewrite build_tree_Denied in H. discriminate.
  - destruct (build_tree_Dir_Some _ _ _ _ H) as (ch & Hch & _ & _ & ->).
    destruct Hn as [<-|Hn].
    { exists [], (Dir (Some l)). rewrite app_nil_r. split; [constructor | exact H]. }
    apply in_flat_map in Hn as (c & Hc & Hn).
    apply (dir_children_In _ _ _ _ Hch) in Hc as ([nm ce] & Hin & Hb).
    rewrite Forall_forall in IH.
    destruct (IH _ Hin _ _ Hb _ Hn) as (more & e' & Hr & Hb').
    exists (nm :: more), e'. split.
    + econstructor; eauto.
    + simpl in Hb'. now rewrite <- app_assoc in Hb'.
Qed.

Lemma at_root (root_path : path) : root_path = root_path ++ [].
Proof. now rewrite app_nil_r. Qed.

(** The nodes of the tree made for the root, each with the entry it is
    made of. *)
Lemma emitted_nodes root_path fs tree :
  build_tree root_path root_path fs = Ret (Some tree) ->
  forall n, In n (nodes_of tree) ->
  exists rest e,
    reaches fs rest e /\
    build_tree (root_path ++ rest) root_path e = Ret (Some n).
Proof.
  intros H n Hn. rewrite (at_root root_path) in H at 1.
  exact (emitted_subtree root_path fs [] tree H n Hn).
Qed.

(* ================================================================== *)
(** ** The line-count policy *)

Lemma mem_In x s : mem x s = true <-> In x s.
Proof.
  unfold mem. rewrite existsb_exists. split.
  - intros [y [Hy E]]. apply String.eqb_eq in E. now subst.
  - intros H. exists x. split; [exact H | apply String.eqb_refl].
Qed.

Lemma should_count_lines_policy p :
  should_count_lines p = true <-> line_count_policy (path_name p).
Proof.
  unfold should_count_lines, line_count_policy, suffix.
  rewrite <- !mem_In.
  destruct (mem (path_name p) LINE_COUNT_FILES); [tauto|].
  split; [auto | intros [H|H]; [discriminate | exact H]].
Qed.

Lemma sum_ones_length {A : Type} (l : list A) :
  sum_ones l = Z.of_nat (List.length l).
Proof.
  unfold sum_ones.
  assert (H : forall a, fold_left (fun acc (_ : A) => acc + 1) l a
                        = a + Z.of_nat (List.length l)).
  { induction l as [|x r IH]; intros a; simpl List.length; simpl fold_left.
    - lia.
    - rewrite IH, Nat2Z.inj_succ. lia. }
  now rewrite H.
Qed.

Lemma file_node_from root_path rest e nm p sz ext ic ln :
  build_tree (root_path ++ rest) root_path e = Ret (Some (FileNode nm p sz ext ic ln)) ->
  exists st content,
    e = File st content /\
    should_exclude_file (path_name (root_path ++ rest)) = false /\
    nm = path_name (root_path ++ rest) /\
    p = str_path (rel_components root_path rest) /\
    sz = Some (get_default st 0) /\
    ext = lower (suffix_of_name nm) /\
    ic = get_file_icon (root_path ++ rest) /\
    ln = if should_count_lines (root_path ++ rest)
         then Some (match content with
                    | Some t => sum_ones (iter_lines t)
                    | None => 0
                    end)
         else None.
Proof.
  intros H. destruct e as [st c|[l|]| |].
  - exists st, c. rewrite build_tree_File in H.
    destruct (should_exclude_file _); [discriminate|].
    injection H as <- <- <- <- <- <-. repeat split.
  - apply build_tree_Dir_Some in H as (ch & _ & _ & _ & [=]).
  - rewrite build_tree_unlisted in H.
    destruct (should_exclude_dir _); discriminate.
  - rewrite build_tree_Other in H. discriminate.
  - rewrite build_tree_Denied in H. discriminate.
Qed.

(** C2. A file node of an emitted tree has a [lines] field, a non-negative
    integer, exactly when the name of the file is in [LINE_COUNT_FILES] or
    its lower-cased suffix is in [LINE_COUNT_EXTENSIONS]; a file outside the
    policy has no such field. *)
Theorem lines_field_iff_policy root_path fs tree :
  build_tree root_path root_path fs = Ret (Some tree) ->
  forall nm p sz ext ic ln,
    In (FileNode nm p sz ext ic ln) (nodes_of tree) ->
    ((exists k, ln = Some k /\ 0 <= k) <-> line_count_policy nm) /\
    (~ line_count_policy nm -> ln = None).
Proof.
  intros H nm p sz ext ic ln Hn.
  destruct (emitted_nodes _ _ _ H _ Hn) as (rest & e & _ & Hb).
  apply file_node_from in Hb
    as (st & content & _ & _ & -> & _ & _ & _ & _ & ->).
  rewrite <- should_count_lines_policy.
  destruct (should_count_lines _); split.
  - split; [reflexivity|]. intros _. eexists. split; [reflexivity|].
    destruct content; [rewrite sum_ones_length|]; lia.
  - intros C. now elim C.
  - split; [intros (k & [=] & _) | discriminate].
  - reflexivity.
Qed.

Lemma lines_field_iff_policy_witness :
  ((exists k, Some 1 = Some k /\ 0 <= k) <-> line_count_policy "a.py") /\
  (~ line_count_policy "a.py" -> Some 1 = None).
Proof.
  apply (lines_field_iff_policy ["proj"]
           (Dir (Some [("b.bin", File (Some 7) None);
                       ("a.py", File (Some 3) (Some [97; 10]%N))]))
           (DirNode "proj" "proj"
              [FileNode "a.py" "proj/a.py" (Some 3) ".py" 0x1F40D%N (Some 1);
               FileNode "b.bin" "proj/b.bin" (Some 7) ".bin" 0x1F4C4%N None])
           eq_refl
           "a.py" "proj/a.py" (Some 3) ".py" 0x1F40D%N (Some 1)).
  simpl. right. left. reflexivity.
Defined.

(* ================================================================== *)
(** ** Stored paths *)

Lemma prefix_append s x : String.prefix s (s ++ x)%string = true.
Proof.
  induction s as [|a s IH]; simpl; [now destruct x|].
  destruct (ascii_dec a a) as [_|C]; [exact IH | now elim C].
Qed.

Lemma prefix_str_path root_path rest :
  String.prefix (path_name root_path)
    (str_path (rel_components root_path rest)) = true.
Proof.
  unfold rel_components. destruct root_path as [|a r].
  - simpl. now destruct (str_path rest).
  - set (nm := path_name (a :: r)). unfold str_path.
    destruct rest as [|b rest']; cbn [String.concat].
    + rewrite <- (prefix_append nm ""). f_equal.
      clear. induction nm; simpl; congruence.
    + apply prefix_append.
Qed.

(** C7. The [path] stored in a node of the tree made for [root_path] is
    the path of the node relative to the parent of [root_path], written as a
    string, and starts with the name of the root directory. *)
Theorem stored_path_relative_to_parent root_path fs tree :
  build_tree root_path root_path fs = Ret (Some tree) ->
  forall n, In n (nodes_of tree) ->
  exists rest e rel,
    reaches fs rest e /\
    node_name n = path_name (root_path ++ rest) /\
    node_is_file n = is_file e /\
    relative_to (root_path ++ rest) (parent root_path) = Ret rel /\
    node_path n = str_path rel /\
    String.prefix (path_name root_path) (node_path n) = true.
Proof.
  intros H n Hn.
  destruct (emitted_nodes _ _ _ H _ Hn) as (rest & e & Hr & Hb).
  apply build_tree_node in Hb as (Hname & Hpath & Hkind).
  exists rest, e, (rel_components root_path rest).
  repeat split; auto using relative_to_below.
  rewrite Hpath. apply prefix_str_path.
Qed.

Lemma stored_path_relative_to_parent_witness :
  exists rest e rel,
    reaches (Dir (Some [("src", Dir (Some [("main.py", File (Some 3) None)]))]))
            rest e /\
    "main.py" = path_name (["home"; "proj"] ++ rest) /\
    true = is_file e /\
    relative_to (["home"; "proj"] ++ rest) (parent ["home"; "proj"]) = Ret rel /\
    "proj/src/main.py" = str_path rel /\
    String.prefix (path_name ["home"; "proj"]) "proj/src/main.py" = true.
Proof.
  apply (stored_path_relative_to_parent ["home"; "proj"]
           (Dir (Some [("src", Dir (Some [("main.py", File (Some 3) None)]))]))
           (DirNode "proj" "proj"
              [DirNode "src" "proj/src"
                 [FileNode "main.py" "proj/src/main.py" (Some 3) ".py"
                    0x1F40D%N (Some 0)]])
           eq_refl
           (FileNode "main.py" "proj/src/main.py" (Some 3) ".py"
              0x1F40D%N (Some 0))).
  simpl. right. right. left. reflexivity.
Defined.

(* ================================================================== *)
(** ** Every emitted directory holds a file *)

Lemma emitted_has_file root_path e :
  forall rest t,
    build_tree (root_path ++ rest) root_path e = Ret (Some t) ->
    exists f, In f (nodes_of t) /\ node_is_file f = true.
Proof.
  induction e as [st c| | | |l IH] using entry_ind; intros rest t H.
  - rewrite build_tree_File in H.
    destruct (should_exclude_file _); [discriminate|].
    injection H as <-. eexists. split; [now left | reflexivity].
  - rewrite build_tree_Other in H. discriminate.
  - rewrite build_tree_unlisted in H.
    destruct (should_exclude_dir _); discriminate.
  - rewrite build_tree_Denied in H. discriminate.
  - destruct (build_tree_Dir_Some _ _ _ _ H) as (ch & Hch & Hne & _ & ->).
    destruct ch as [|c r]; [now elim Hne|].
    assert (Hc : In c (c :: r)) by now left.
    apply (dir_children_In _ _ _ _ Hch) in Hc as (nc & Hin & Hb).
    rewrite Forall_forall in IH.
    destruct (IH _ Hin _ _ Hb) as (f & Hf & Hfile).
    exists f. split; [|exact Hfile].
    simpl. right. apply in_or_app. now left.
Qed.

Lemma files_positive t f :
  In f (nodes_of t) -> node_is_file f = true ->
  1 <= t_files (calculate_totals t).
Proof.
  intros Hin Hf.
  unfold calculate_totals. rewrite traverse_tally, tally_sums. cbn [t_files].
  assert (Hin' : In f (filter node_is_file (nodes_of t)))
    by (apply filter_In; auto).
  destruct (filter node_is_file (nodes_of t)); [destruct Hin'|].
  cbn [List.length]. lia.
Qed.

(** C9. A directory node of an emitted tree has a file node among its
    descendants, and the totals of an emitted tree count at least one
    file. *)
Theorem emitted_directories_hold_files root_path fs tree :
  build_tree root_path root_path fs = Ret (Some tree) ->
  (forall d, In d (nodes_of tree) -> node_is_file d = false ->
     exists f, In f (nodes_of d) /\ node_is_file f = true /\ f <> d) /\
  1 <= t_files (calculate_totals tree).
Proof.
  intros H. split.
  - intros d Hd Hdir.
    destruct (emitted_nodes _ _ _ H _ Hd) as (rest & e & _ & Hb).
    destruct (emitted_has_file _ _ _ _ Hb) as (f & Hf & Hfile).
    exists f. repeat split; auto. congruence.
  - rewrite (at_root root_path) in H at 1.
    destruct (emitted_has_file _ _ _ _ H) as (f & Hf & Hfile).
    eapply files_positive; eauto.
Qed.

Lemma emitted_directories_hold_files_witness :
  let leaf := FileNode "main.py" "proj/src/main.py" (Some 3) ".py"
                0x1F40D%N (Some 0) in
  let tree := DirNode "proj" "proj" [DirNode "src" "proj/src" [leaf]] in
  (forall d, In d (nodes_of tree) -> node_is_file d = false ->
     exists f, In f (nodes_of d) /\ node_is_file f = true /\ f <> d) /\
  1 <= t_files (calculate_totals tree).
Proof.
  exact (emitted_directories_hold_files ["home"; "proj"]
           (Dir (Some [("src", Dir (Some [("main.py", File (Some 3) None)]));
                       ("empty", Dir (Some []))]))
           _ eq_refl).
Defined.

(* ================================================================== *)
(** ** When the scan returns, and when it returns nothing *)

Lemma emitted_nil rs :
  flat_map emitted rs = [] <-> forall c, ~ In (Ret (Some c)) rs.
Proof.
  induction rs as [|r rest IH]; simpl.
  - split; auto.
  - split.
    + intros H c [->|Hin].
      * discriminate.
      * apply app_eq_nil in H as [_ H]. now apply (proj1 IH H c).
    + intros H. destruct r as [[n|]|e]; simpl.
      * elim (H n). now left.
      * apply IH. intros c Hc. apply (H c). now right.
      * apply IH. intros c Hc. apply (H c). now right.
Qed.

Lemma existsb_false {A : Type} (f : A -> bool) l :
  existsb f l = false <-> forall x, In x l -> f x = false.
Proof.
  induction l as [|a r IH]; simpl.
  - split; [intros _ x [] | reflexivity].
  - rewrite orb_false_iff, IH. split.
    + intros [Ha Hr] x [<-|Hx]; auto.
    + intros H. split; [apply H; now left | intros x Hx; apply H; now right].
Qed.

Lemma scan_ok_keys l :
  (forall nc, In nc l -> scan_ok (fst nc) (snd nc) = true) ->
  keys_raise l = false.
Proof.
  intros H. apply existsb_false. intros [n c] Hin.
  specialize (H _ Hin). simpl in *. now destruct c.
Qed.

Lemma build_tree_scan root_path e :
  forall rest,
    let name := path_name (root_path ++ rest) in
    scan_ok name e = true ->
    exists r,
      build_tree (root_path ++ rest) root_path e = Ret r /\
      (r = None <-> has_included_file name e = false).
Proof.
  induction e as [st c| | | |l IH] using entry_ind; intros rest name Hok.
  - rewrite build_tree_File. fold name. simpl.
    destruct (should_exclude_file name); eexists; (split; [reflexivity|]);
      simpl; split; auto; discriminate.
  - rewrite build_tree_Other. exists None. simpl. tauto.
  - rewrite build_tree_unlisted. fold name. simpl in Hok. rewrite Hok.
    exists None. simpl. tauto.
  - discriminate.
  - rewrite build_tree_Dir. fold name. simpl in Hok |- *.
    destruct (should_exclude_dir name); simpl.
    { exists None. tauto. }
    simpl in Hok. rewrite forallb_forall in Hok. rewrite Forall_forall in IH.
    assert (Hg : forall nc, In nc l ->
              exists r,
                build_tree (joinpath (root_path ++ rest) (fst nc)) root_path (snd nc)
                = Ret r /\
                (r = None <-> has_included_file (fst nc) (snd nc) = false)).
    { intros nc Hin.
      specialize (IH nc Hin (rest ++ [fst nc])). cbv zeta in IH.
      rewrite <- join_below, path_name_join in IH.
      apply IH. now apply Hok. }
    unfold dir_children. rewrite (scan_ok_keys l Hok).
    set (rs := map _ (sorted entry_key l)).
    assert (Hret : Forall returns rs).
    { apply Forall_forall. intros r Hr. apply in_map_iff in Hr as (nc & <- & Hin).
      apply sorted_In in Hin. destruct (Hg nc Hin) as (r & -> & _). now exists r. }
    rewrite (proj2 (collect_Ret rs _) (conj Hret eq_refl)). simpl.
    destruct (flat_map emitted rs) as [|c ch] eqn:E.
    + exists None. split; [reflexivity|]. split; [intros _|reflexivity].
      apply existsb_false. intros nc Hin.
      destruct (Hg nc Hin) as ([n|] & Hb & Hiff); [|now apply Hiff].
      exfalso. apply (proj1 (emitted_nil rs) E n).
      apply in_map_iff. exists nc. split; [exact Hb | now apply sorted_In].
    + eexists. split; [reflexivity|]. split; [discriminate|].
      intros Hnone. exfalso.
      assert (Hc : In c (flat_map emitted rs)) by (rewrite E; now left).
      apply in_flat_map in Hc as (r & Hr & Hc). apply in_emitted in Hc. subst r.
      apply in_map_iff in Hr as (nc & Hb & Hin). apply sorted_In in Hin.
      destruct (Hg nc Hin) as (r & Hb' & Hiff).
      rewrite (proj1 (existsb_false _ l) Hnone nc Hin) in Hiff.
      rewrite Hb in Hb'. injection Hb' as <-.
      now discriminate (proj2 Hiff eq_refl).
Qed.

(* ================================================================== *)
(** ** An entry that yields nothing might as well not be there *)

Section Removal.
Context {A : Type} (k : A -> key).

Lemma insert_split x l :
  exists s1 s2, insert k x l = s1 ++ x :: s2 /\ l = s1 ++ s2.
Proof.
  induction l as [|y r (s1 & s2 & Hi & Hl)]; simpl.
  - now exists [], [].
  - destruct (key_ltb (k y) (k x)).
    + exists (y :: s1), s2. simpl. now rewrite Hi, Hl at 1.
    + now exists [], (y :: r).
Qed.

Lemma insert_remove a x s1 s2 :
  StronglySorted (le_by k) (s1 ++ x :: s2) ->
  exists t1 t2,
    insert k a (s1 ++ x :: s2) = t1 ++ x :: t2 /\
    insert k a (s1 ++ s2) = t1 ++ t2.
Proof.
  induction s1 as [|y s1 IH]; simpl; intros Hs.
  - destruct (key_ltb (k x) (k a)) eqn:E.
    + now exists [], (insert k a s2).
    + exists [a], s2. split; [reflexivity|]. simpl.
      apply insert_head. inversion_clear Hs as [|? ? _ Hx].
      eapply Forall_impl; [|exact Hx]. intros z Hz.
      exact (KeyOrder.le_trans _ _ _ E Hz).
  - inversion_clear Hs as [|? ? Hs' _].
    destruct (key_ltb (k y) (k a)).
    + destruct (IH Hs') as (t1 & t2 & H1 & H2).
      exists (y :: t1), t2. simpl. now rewrite H1, H2.
    + now exists (a :: y :: s1), s2.
Qed.

Lemma sorted_remove l1 x l2 :
  exists s1 s2,
    sorted k (l1 ++ x :: l2) = s1 ++ x :: s2 /\
    sorted k (l1 ++ l2) = s1 ++ s2.
Proof.
  induction l1 as [|a l1 (s1 & s2 & H1 & H2)]; simpl.
  - apply insert_split.
  - rewrite H1, H2. apply insert_remove.
    rewrite <- H1. apply sorted_sorted.
Qed.
End Removal.

Lemma collect_skip a b :
  collect (a ++ Ret None :: b) = collect (a ++ b).
Proof.
  induction a as [|r a IH]; simpl.
  - now destruct (collect b).
  - now rewrite IH.
Qed.

Lemma build_tree_remove root_path rest l1 nc l2 :
  build_tree (root_path ++ (rest ++ [fst nc])) root_path (snd nc) = Ret None ->
  build_tree (root_path ++ rest) root_path (Dir (Some (l1 ++ nc :: l2)))
  = build_tree (root_path ++ rest) root_path (Dir (Some (l1 ++ l2))).
Proof.
  intros Hnone. rewrite !build_tree_Dir.
  destruct (should_exclude_dir _); [reflexivity|].
  assert (Hnc : type_test_raises (snd nc) = false).
  { destruct nc as [n c]. simpl in *. destruct c; try reflexivity.
    rewrite build_tree_Denied in Hnone. discriminate. }
  assert (Hkeys : keys_raise (l1 ++ nc :: l2) = keys_raise (l1 ++ l2)).
  { unfold keys_raise. rewrite !existsb_app. simpl. now rewrite Hnc. }
  unfold dir_children. rewrite Hkeys.
  destruct (keys_raise (l1 ++ l2)); [reflexivity|].
  destruct (sorted_remove entry_key l1 nc l2) as (s1 & s2 & -> & ->).
  rewrite !map_app. simpl. rewrite join_below, Hnone.
  now rewrite collect_skip.
Qed.

Lemma dir_node_from root_path rest e nm p ch :
  build_tree (root_path ++ rest) root_path e = Ret (Some (DirNode nm p ch)) ->
  exists l,
    e = Dir (Some l) /\
    dir_children (root_path ++ rest) root_path l = Ret ch /\
    ch <> [].
Proof.
  destruct e as [st c|[l|]| |]; intros H.
  - rewrite build_tree_File in H.
    destruct (should_exclude_file _); discriminate.
  - apply build_tree_Dir_Some in H as (ch' & Hch & Hne & _ & [= _ _ ->]).
    now exists l.
  - rewrite build_tree_unlisted in H.
    destruct (should_exclude_dir _); discriminate.
  - rewrite build_tree_Other in H. discriminate.
  - rewrite build_tree_Denied in H. discriminate.
Qed.

Lemma all_excluded_scan name l :
  forallb entry_excluded l = true ->
  scan_ok name (Dir (Some l)) = true /\
  has_included_file name (Dir (Some l)) = false.
Proof.
  intros H. rewrite forallb_forall in H. simpl. split.
  - apply orb_true_iff. right. apply forallb_forall. intros [n c] Hin.
    specialize (H _ Hin). unfold entry_excluded in H. simpl in *.
    destruct c as [st t|[l'|]| |]; simpl; auto. now rewrite H.
  - apply andb_false_iff. right. apply existsb_false. intros [n c] Hin.
    specialize (H _ Hin). unfold entry_excluded in H. simpl in *.
    destruct c as [st t|[l'|]| |]; simpl; auto; now rewrite H.
Qed.

(** C3. For a directory whose entries are all excluded, and for any path
    that holds no included file (every file below it is excluded or lies in
    an excluded directory, or there is none), [build_tree] returns nothing;
    a directory entry for which it returns nothing leaves the result for
    the directory above, and so the totals, as if the entry were not there;
    and no directory node of an emitted tree has an empty list of
    children. *)
Theorem excluded_only_directories_vanish root_path :
  (forall rest l,
     forallb entry_excluded l = true ->
     build_tree (root_path ++ rest) root_path (Dir (Some l)) = Ret None) /\
  (forall rest e,
     scan_ok (path_name (root_path ++ rest)) e = true ->
     has_included_file (path_name (root_path ++ rest)) e = false ->
     build_tree (root_path ++ rest) root_path e = Ret None) /\
  (forall rest l1 nc l2,
     build_tree (root_path ++ (rest ++ [fst nc])) root_path (snd nc) = Ret None ->
     build_tree (root_path ++ rest) root_path (Dir (Some (l1 ++ nc :: l2)))
     = build_tree (root_path ++ rest) root_path (Dir (Some (l1 ++ l2)))) /\
  (forall fs tree,
     build_tree root_path root_path fs = Ret (Some tree) ->
     forall nm p ch, In (DirNode nm p ch) (nodes_of tree) -> ch <> []).
Proof.
  assert (Hnothing : forall rest e,
            scan_ok (path_name (root_path ++ rest)) e = true ->
            has_included_file (path_name (root_path ++ rest)) e = false ->
            build_tree (root_path ++ rest) root_path e = Ret None).
  { intros rest e Hok Hnone.
    destruct (build_tree_scan root_path e rest Hok) as (r & -> & Hiff).
    f_equal. now apply Hiff. }
  split; [|split; [|split]].
  - intros rest l Hall.
    destruct (all_excluded_scan (path_name (root_path ++ rest)) l Hall).
    now apply Hnothing.
  - exact Hnothing.
  - apply build_tree_remove.
  - intros fs tree H nm p ch Hin.
    destruct (emitted_nodes _ _ _ H _ Hin) as (rest & e & _ & Hb).
    now apply dir_node_from in Hb as (l & _ & _ & Hne).
Qed.

Lemma excluded_only_directories_vanish_witness :
  build_tree ["proj"; "cache"; "inner"] ["proj"]
    (Dir (Some [ (".DS_Store", File (Some 1) None) ]))
  = Ret None /\
  build_tree ["proj"; "cache"] ["proj"]
    (Dir (Some [ ("a.pyc", File (Some 9) None);
                 ("inner", Dir (Some [ (".DS_Store", File (Some 1) None) ])) ]))
  = Ret None /\
  build_tree ["proj"] ["proj"] vanish_fs
  = build_tree ["proj"] ["proj"]
      (Dir (Some [ ("README.md", File (Some 12) (Some [35; 10]%N));
                   ("empty", Dir (Some [])) ])) /\
  (forall nm p ch, In (DirNode nm p ch) (nodes_of vanish_tree) -> ch <> []).
Proof.
  destruct (excluded_only_directories_vanish ["proj"]) as (Hd & Ha & Hb & Hc).
  split; [|split; [|split]].
  - apply (Hd ["cache"; "inner"]). reflexivity.
  - apply (Ha ["cache"]); reflexivity.
  - apply (Hb [] [("README.md", File (Some 12) (Some [35; 10]%N))]
              ("cache", Dir (Some [ ("a.pyc", File (Some 9) None);
                                    ("inner", Dir (Some [ (".DS_Store", File (Some 1) None) ])) ]))
              [("empty", Dir (Some []))]).
    reflexivity.
  - apply (Hc vanish_fs vanish_tree). reflexivity.
Defined.

(* ================================================================== *)
(** ** Failures on single files *)

Lemma main_build now name_arg root_path fs out :
  main now name_arg root_path fs out =
  if mkdir_ok out then
    match build_tree root_path root_path fs with
    | Ret None => Ret (1, None)
    | Ret (Some tree) =>
        if write_ok out then
          Ret (0, Some {| generated_at := now;
                          project_name :=
                            match name_arg with
                            | Some (String c s) => String c s
                            | _ => path_name root_path
                            end;
                          root := str_abs root_path;
                          r_totals := calculate_totals tree;
                          r_tree := tree |})
        else Raise OSError
    | Raise x => Raise x
    end
  else Raise OSError.
Proof.
  unfold main, mkdir_parents, write_json.
  destruct (mkdir_ok out); [|reflexivity]. simpl.
  destruct (build_tree root_path root_path fs) as [[t|]|x]; try reflexivity.
  simpl. now destruct (write_ok out).
Qed.

Lemma denied_entry_raises root_path rest l n :
  should_exclude_dir (path_name (root_path ++ rest)) = false ->
  In (n, Denied) l ->
  build_tree (root_path ++ rest) root_path (Dir (Some l)) = Raise OSError.
Proof.
  intros Hex Hin. rewrite build_tree_Dir, Hex. unfold dir_children.
  assert (Hk : keys_raise l = true)
    by (apply existsb_exists; exists (n, Denied); auto).
  now rewrite Hk.
Qed.

Lemma child_raise_propagates root_path rest l n c x :
  should_exclude_dir (path_name (root_path ++ rest)) = false ->
  In (n, c) l ->
  build_tree (root_path ++ (rest ++ [n])) root_path c = Raise x ->
  exists y, build_tree (root_path ++ rest) root_path (Dir (Some l)) = Raise y.
Proof.
  intros Hex Hin Hc. rewrite build_tree_Dir, Hex. unfold dir_children.
  destruct (keys_raise l); [now exists OSError|].
  destruct (collect _) as [cs|y] eqn:E; [|now exists y].
  exfalso. apply collect_Ret in E as [Hret _]. rewrite Forall_forall in Hret.
  destruct (Hret (build_tree (joinpath (root_path ++ rest) n) root_path c))
    as [r Hr].
  - apply in_map_iff. exists (n, c). split; [reflexivity | now apply sorted_In].
  - rewrite join_below in Hr. congruence.
Qed.

(** C6, on the code.  A file that cannot be read counts 0 lines, and a
    [stat] that fails at [path.stat()], after [is_file()] has answered,
    gives size 0; the node is emitted in both cases.  But [is_file()] is
    [stat] too, and is called outside the [try]: an entry on which it is
    refused makes [build_tree] raise for the directory that lists it, the
    exception goes up through every directory above, and [main] raises:
    no node, no report, no exit status. *)
Theorem stat_failure_aborts_scan :
  count_lines None = Ret 0 /\
  (forall root_path rest st content,
     let p := root_path ++ rest in
     should_exclude_file (path_name p) = false ->
     exists nm rp sz ext ic ln,
       build_tree p root_path (File st content)
       = Ret (Some (FileNode nm rp sz ext ic ln)) /\
       (st = None -> sz = Some 0) /\
       (should_count_lines p = true -> content = None -> ln = Some 0)) /\
  (forall root_path rest l n,
     should_exclude_dir (path_name (root_path ++ rest)) = false ->
     In (n, Denied) l ->
     build_tree (root_path ++ rest) root_path (Dir (Some l)) = Raise OSError) /\
  (forall root_path rest l n c x,
     should_exclude_dir (path_name (root_path ++ rest)) = false ->
     In (n, c) l ->
     build_tree (root_path ++ (rest ++ [n])) root_path c = Raise x ->
     exists y,
       build_tree (root_path ++ rest) root_path (Dir (Some l)) = Raise y) /\
  (forall now name_arg root_path fs out x,
     build_tree root_path root_path fs = Raise x ->
     exists y, main now name_arg root_path fs out = Raise y).
Proof.
  split; [reflexivity|]. split; [|split; [|split]].
  - intros root_path rest st content p Hex. subst p.
    rewrite build_tree_File, Hex.
    do 6 eexists. split; [reflexivity|]. split.
    + now intros ->.
    + now intros -> ->.
  - apply denied_entry_raises.
  - apply child_raise_propagates.
  - intros now name_arg root_path fs out x H. rewrite main_build, H.
    destruct (mkdir_ok out); eexists; reflexivity.
Qed.

Lemma stat_failure_aborts_scan_witness :
  build_tree ["home"; "proj"; "locked"] ["home"; "proj"]
    (Dir (Some [("a.py", Denied)]))
  = Raise OSError /\
  (exists y,
     build_tree ["home"; "proj"] ["home"; "proj"] locked_project = Raise y) /\
  (exists y,
     main "2026-01-01T00:00:00" None ["home"; "proj"] locked_project
          output_written
     = Raise y).
Proof.
  destruct stat_failure_aborts_scan as (_ & _ & Hdenied & Hup & Hmain).
  split; [|split].
  - apply (Hdenied ["home"; "proj"] ["locked"] [("a.py", Denied)] "a.py").
    + reflexivity.
    + left. reflexivity.
  - apply (Hup ["home"; "proj"] []
               [ ("README.md", File (Some 9) (Some [35; 32; 104; 105; 10]%N));
                 ("locked", Dir (Some [("a.py", Denied)])) ]
               "locked" (Dir (Some [("a.py", Denied)])) OSError).
    + reflexivity.
    + right. left. reflexivity.
    + reflexivity.
  - apply (Hmain "2026-01-01T00:00:00" None ["home"; "proj"] locked_project
             output_written OSError).
    reflexivity.
Defined.

(** The scan of [locked_project], computed: the report is lost although
    [README.md] could be read. *)
Example scan_locked_project :
  main "2026-01-01T00:00:00" None ["home"; "proj"] locked_project
       output_written
  = Raise OSError.
Proof. reflexivity. Qed.

(* ================================================================== *)
(** ** The order of the children *)

Lemma emitted_sorted (g : string * entry -> outcome (option node)) s :
  StronglySorted (le_by entry_key) s ->
  (forall nc c, In nc s -> g nc = Ret (Some c) -> node_key c = entry_key nc) ->
  StronglySorted (le_by node_key) (flat_map emitted (map g s)).
Proof.
  induction 1 as [|x r Hr IH Hx]; intros Hkey; simpl; [constructor|].
  assert (IH' : StronglySorted (le_by node_key) (flat_map emitted (map g r)))
    by (apply IH; intros nc c Hin; apply Hkey; now right).
  destruct (g x) as [[c|]|e] eqn:Hg; simpl; try exact IH'.
  constructor; [exact IH'|].
  apply Forall_forall. intros c' Hc'.
  apply in_flat_map in Hc' as (r' & Hr' & Hc'). apply in_emitted in Hc'. subst r'.
  apply in_map_iff in Hr' as (nc & Hg' & Hin).
  unfold le_by. rewrite (Hkey x c (or_introl eq_refl) Hg).
  rewrite (Hkey nc c' (or_intror Hin) Hg').
  rewrite Forall_forall in Hx. exact (Hx nc Hin).
Qed.

Lemma key_le_kinds a b :
  le_by node_key a b -> node_is_file a = true -> node_is_file b = true.
Proof.
  unfold le_by, key_le, node_key, key_ltb. simpl. intros H Ha. rewrite Ha in H.
  destruct (node_is_file b); [reflexivity | discriminate].
Qed.

Lemma key_le_names a b :
  le_by node_key a b -> node_is_file a = node_is_file b -> name_le a b.
Proof.
  unfold le_by, key_le, node_key, key_ltb, name_le. simpl. intros H E.
  rewrite E, Bool.eqb_reflx in H.
  now rewrite KeyOrder.string_leb_ltb, H.
Qed.

Lemma key_sorted_dirs_then_files ch :
  StronglySorted (le_by node_key) ch -> dirs_then_files ch.
Proof.
  induction 1 as [|c r Hr (ds & fs & -> & Hds & Hfs & Sds & Sfs) Hc].
  - exists [], []. repeat split; constructor.
  - rewrite Forall_forall in Hc.
    destruct (node_is_file c) eqn:Hkind.
    + assert (Hall : forall x, In x (ds ++ fs) -> node_is_file x = true)
        by (intros x Hx; eapply key_le_kinds; eauto).
      destruct ds as [|d ds].
      * exists [], (c :: fs). simpl in *. repeat split; auto; try constructor; auto.
        apply Forall_forall. intros x Hx. apply key_le_names; auto.
        rewrite Hkind. symmetry. now apply Hall.
      * exfalso. inversion_clear Hds as [|? ? Hd _].
        rewrite (Hall d (or_introl eq_refl)) in Hd. discriminate.
    + exists (c :: ds), fs. repeat split; auto.
      constructor; [exact Sds|].
      apply Forall_forall. intros x Hx. apply key_le_names.
      * apply Hc. apply in_or_app. now left.
      * rewrite Forall_forall in Hds. now rewrite Hkind, (Hds x Hx).
Qed.

Lemma children_sorted root_path rest l children :
  dir_children (root_path ++ rest) root_path l = Ret children ->
  StronglySorted (le_by node_key) children.
Proof.
  intros H. apply dir_children_collect in H as [_ H].
  apply collect_Ret in H as [_ ->].
  apply emitted_sorted; [apply sorted_sorted|].
  intros nc c _ Hb. rewrite join_below in Hb.
  apply build_tree_node in Hb as (Hname & _ & Hkind).
  unfold node_key, entry_key. rewrite Hname, Hkind.
  rewrite app_assoc. fold (joinpath (root_path ++ rest) (fst nc)).
  now rewrite path_name_join.
Qed.

(** C4. In every directory node of an emitted tree the directory nodes
    come before the file nodes, and the lower-cased names ascend within the
    directories and within the files. *)
Theorem children_dirs_then_files root_path fs tree :
  build_tree root_path root_path fs = Ret (Some tree) ->
  forall nm p ch,
    In (DirNode nm p ch) (nodes_of tree) ->
    dirs_then_files ch.
Proof.
  intros H nm p ch Hin.
  destruct (emitted_nodes _ _ _ H _ Hin) as (rest & e & _ & Hb).
  apply key_sorted_dirs_then_files.
  apply dir_node_from in Hb as (l & _ & Hch & _).
  eapply children_sorted; eauto.
Qed.

Lemma children_dirs_then_files_witness :
  dirs_then_files
    [DirNode "alpha" "proj/alpha"
       [FileNode "x.py" "proj/alpha/x.py" (Some 0) ".py" 0x1F40D%N (Some 0)];
     DirNode "Zeta" "proj/Zeta"
       [FileNode "z.py" "proj/Zeta/z.py" (Some 0) ".py" 0x1F40D%N (Some 0)];
     FileNode "A.py" "proj/A.py" (Some 0) ".py" 0x1F40D%N (Some 0);
     FileNode "b.py" "proj/b.py" (Some 0) ".py" 0x1F40D%N (Some 0)].
Proof.
  apply (children_dirs_then_files ["proj"]
           (Dir (Some [("b.py", File None None);
                       ("Zeta", Dir (Some [("z.py", File None None)]));
                       ("A.py", File None None);
                       ("alpha", Dir (Some [("x.py", File None None)]))]))
           _ eq_refl "proj" "proj").
  simpl. left. reflexivity.
Defined.

(* ================================================================== *)
(** ** What [count_lines] counts *)

Lemma tail_open_last b t c : tail_open b (t ++ [c]) = negb (is_terminator c).
Proof. revert b. induction t as [|a t IH]; intros b; simpl; auto. Qed.

Lemma unterminated_tail_open t : unterminated_tail t = tail_open false t.
Proof.
  unfold unterminated_tail. destruct (rev t) as [|c l] eqn:E.
  - apply (f_equal (@rev N)) in E. rewrite rev_involutive in E. now subst.
  - apply (f_equal (@rev N)) in E. rewrite rev_involutive in E. subst.
    simpl. now rewrite tail_open_last.
Qed.

Lemma iter_lines_from_count n :
  forall t cur,
    (List.length t <= n)%nat ->
    Z.of_nat (List.length (iter_lines_from cur t))
    = terminators t
      + (if tail_open (match cur with [] => false | _ => true end) t
         then 1 else 0).
Proof.
  induction n as [|n IH]; intros t cur Hlen.
  - destruct t; [|simpl in Hlen; lia]. now destruct cur.
  - destruct t as [|c r]; [now destruct cur|].
    simpl in Hlen. cbn [iter_lines_from terminators tail_open]. unfold is_terminator.
    destruct (c =? LF)%N eqn:ELF.
    { cbn [List.length orb negb]. rewrite Nat2Z.inj_succ, (IH r []) by lia. lia. }
    destruct (c =? CR)%N eqn:ECR; cbn [orb negb].
    + destruct r as [|c' r'].
      * reflexivity.
      * destruct (c' =? LF)%N eqn:ELF'.
        -- cbn [List.length tail_open]. unfold is_terminator. rewrite ELF'.
           cbn [orb negb]. simpl in Hlen.
           rewrite Nat2Z.inj_succ, (IH r' []) by lia. lia.
        -- cbn [List.length]. rewrite Nat2Z.inj_succ, (IH (c' :: r') []) by lia. lia.
    + rewrite (IH r (c :: cur)) by lia. reflexivity.
Qed.

Lemma count_lines_value t :
  count_lines (Some t)
  = Ret (terminators t + (if unterminated_tail t then 1 else 0)).
Proof.
  unfold count_lines, iter_lines. simpl. f_equal.
  rewrite sum_ones_length, unterminated_tail_open.
  exact (iter_lines_from_count (List.length t) t [] (le_n _)).
Qed.

(** C5, as the code has it.  The [lines] field of a file in the policy is
    the number of lines that iterating over the file gives: the number of
    line terminators, and one more when the text is not empty and does not
    end in a terminator. *)
Theorem lines_counts_lines :
  (forall t,
     count_lines (Some t)
     = Ret (terminators t + (if unterminated_tail t then 1 else 0))) /\
  (forall root_path rest st t nm p sz ext ic ln,
     build_tree (root_path ++ rest) root_path (File st (Some t))
     = Ret (Some (FileNode nm p sz ext ic ln)) ->
     should_count_lines (root_path ++ rest) = true ->
     ln = Some (terminators t + (if unterminated_tail t then 1 else 0))).
Proof.
  split; [exact count_lines_value|].
  intros root_path rest st t nm p sz ext ic ln H Hpol.
  apply file_node_from in H as (st' & c' & [= _ <-] & _ & _ & _ & _ & _ & _ & ->).
  rewrite Hpol. f_equal.
  pose proof (count_lines_value t) as Hc. unfold count_lines in Hc.
  simpl in Hc. now injection Hc.
Qed.

Lemma lines_counts_lines_witness :
  Some 2 = Some (terminators [97; 10; 98]%N
                 + (if unterminated_tail [97; 10; 98]%N then 1 else 0)).
Proof.
  apply (proj2 lines_counts_lines ["proj"] ["a.py"] (Some 3) [97; 10; 98]%N
           "a.py" "proj/a.py" (Some 3) ".py" 0x1F40D%N (Some 2));
    reflexivity.
Defined.

(** C5, as the claim has it, fails: a file that holds the one character
    [a] and no line terminator is given [lines = 1]. *)
Lemma unterminated_line_is_counted :
  terminators [97%N] = 0 /\
  count_lines (Some [97%N]) = Ret 1 /\
  build_tree ["proj"; "a.py"] ["proj"] (File (Some 1) (Some [97%N]))
  = Ret (Some (FileNode "a.py" "proj/a.py" (Some 1) ".py" 0x1F40D%N (Some 1))) /\
  count_lines (Some [97%N]) <> Ret (terminators [97%N]).
Proof.
  repeat split. discriminate.
Qed.

(* ================================================================== *)
(** ** The case of the suffix *)

Lemma lower_char_idem c : lower_char (lower_char c) = lower_char c.
Proof.
  destruct c as [[] [] [] [] [] [] [] []]; reflexivity.
Qed.

Lemma lower_idem s : lower (lower s) = lower s.
Proof.
  induction s as [|c s IH]; simpl; [reflexivity|].
  now rewrite lower_char_idem, IH.
Qed.

Lemma lower_char_dot a :
  Ascii.eqb (lower_char a) "."%char = Ascii.eqb a "."%char.
Proof.
  destruct a as [[] [] [] [] [] [] [] []]; reflexivity.
Qed.

Lemma rfind_from_lower s :
  forall i, rfind_from "."%char (lower s) i = rfind_from "."%char s i.
Proof.
  induction s as [|a s IH]; intros i; simpl; [reflexivity|].
  now rewrite IH, lower_char_dot.
Qed.

Lemma length_lower s : String.length (lower s) = String.length s.
Proof. induction s; simpl; congruence. Qed.

Lemma substring_lower s :
  forall n m, String.substring n m (lower s) = lower (String.substring n m s).
Proof.
  induction s as [|a s IH]; intros [|n] [|m]; simpl; try reflexivity;
    now rewrite IH.
Qed.

(** The lower-cased suffix is the suffix of the lower-cased name. *)
Lemma suffix_lower name :
  suffix_of_name (lower name) = lower (suffix_of_name name).
Proof.
  unfold suffix_of_name, rfind, len, slice_from.
  rewrite rfind_from_lower, length_lower.
  destruct ((0 <? _) && _); [apply substring_lower | reflexivity].
Qed.

(** A name in [LINE_COUNT_FILES] that has a suffix has one of
    [LINE_COUNT_EXTENSIONS]. *)
Lemma line_count_files_suffix name :
  mem name LINE_COUNT_FILES = true ->
  suffix_of_name name <> "" ->
  mem (lower (suffix_of_name name)) LINE_COUNT_EXTENSIONS = true.
Proof.
  intros H Hs. apply mem_In in H. simpl in H.
  repeat (destruct H as [<-|H]; [try reflexivity; now elim Hs|]).
  destruct H.
Qed.

Lemma should_count_lines_suffix p :
  suffix p <> "" ->
  should_count_lines p = mem (lower (suffix p)) LINE_COUNT_EXTENSIONS.
Proof.
  intros Hs. unfold should_count_lines.
  destruct (mem (path_name p) LINE_COUNT_FILES) eqn:E; [|reflexivity].
  symmetry. now apply line_count_files_suffix.
Qed.

(** C10. The decisions taken on the extension see the lower-cased suffix
    only: two names whose suffixes are equal up to case get the same answer
    from the compiled-file check of [should_exclude_file] and from the
    extension check of [should_count_lines] (the two checks that come after
    the tables of whole names), and the same icon; the lower-cased suffix
    of a name is the suffix of the lower-cased name; the [extension] of a
    file node is the lower-cased suffix of its name; [MAIN.PY] is counted,
    drawn and recorded as a [.py] file. *)
Theorem extension_decisions_ignore_case :
  (forall p1 p2,
     lower (suffix p1) = lower (suffix p2) ->
     (mem (path_name p1) EXCLUDE_FILES = false ->
      mem (path_name p2) EXCLUDE_FILES = false ->
      should_exclude_file (path_name p1) = should_exclude_file (path_name p2)) /\
     (mem (path_name p1) LINE_COUNT_FILES = false ->
      mem (path_name p2) LINE_COUNT_FILES = false ->
      should_count_lines p1 = should_count_lines p2) /\
     (suffix p1 <> "" -> should_count_lines p1 = should_count_lines p2) /\
     get_file_icon p1 = get_file_icon p2) /\
  (forall name, lower (suffix_of_name name) = suffix_of_name (lower name)) /\
  (forall root_path fs tree,
     build_tree root_path root_path fs = Ret (Some tree) ->
     forall nm p sz ext ic ln,
       In (FileNode nm p sz ext ic ln) (nodes_of tree) ->
       ext = lower (suffix_of_name nm) /\ lower ext = ext) /\
  (should_exclude_file "MAIN.PY" = should_exclude_file "main.py" /\
   should_count_lines ["MAIN.PY"] = should_count_lines ["main.py"] /\
   get_file_icon ["MAIN.PY"] = get_file_icon ["main.py"] /\
   build_tree ["proj"; "MAIN.PY"] ["proj"] (File (Some 4) (Some [120; 10]%N))
   = Ret (Some (FileNode "MAIN.PY" "proj/MAIN.PY" (Some 4) ".py" 0x1F40D%N
                  (Some 1)))).
Proof.
  split; [|split; [|split]].
  - intros p1 p2 E. repeat split.
    + intros H1 H2. unfold should_exclude_file. rewrite H1, H2.
      unfold suffix in E. now rewrite E.
    + intros H1 H2. unfold should_count_lines. now rewrite H1, H2, E.
    + intros Hs. assert (Hs2 : suffix p2 <> "").
      { intros C. rewrite C in E. simpl in E.
        destruct (suffix p1); [now elim Hs | discriminate]. }
      now rewrite !should_count_lines_suffix, E.
    + unfold get_file_icon. now rewrite E.
  - intros name. symmetry. apply suffix_lower.
  - intros root_path fs tree H nm p sz ext ic ln Hin.
    destruct (emitted_nodes _ _ _ H _ Hin) as (rest & e & _ & Hb).
    apply file_node_from in Hb as (st & c & _ & _ & _ & _ & _ & -> & _).
    split; [reflexivity | apply lower_idem].
  - repeat split.
Qed.

Lemma extension_decisions_ignore_case_witness :
  (should_exclude_file (path_name ["proj"; "LIB.SO"])
   = should_exclude_file (path_name ["proj"; "lib.so"])) /\
  (should_count_lines ["proj"; "Notes.TXT"]
   = should_count_lines ["proj"; "notes.txt"]) /\
  (should_count_lines ["proj"; "README.md"]
   = should_count_lines ["proj"; "x.MD"]) /\
  (".py" = lower (suffix_of_name "MAIN.PY") /\ lower ".py" = ".py").
Proof.
  destruct extension_decisions_ignore_case as (Hdec & _ & Hext & _).
  split; [|split; [|split; [|split]]].
  - destruct (Hdec ["proj"; "LIB.SO"] ["proj"; "lib.so"] eq_refl)
      as (Hexclude & _).
    apply Hexclude; reflexivity.
  - destruct (Hdec ["proj"; "Notes.TXT"] ["proj"; "notes.txt"] eq_refl)
      as (_ & Hcount & _).
    apply Hcount; reflexivity.
  - destruct (Hdec ["proj"; "README.md"] ["proj"; "x.MD"] eq_refl)
      as (_ & _ & Hsuffix & _).
    apply Hsuffix. discriminate.
  - apply (Hext ["proj"] (Dir (Some [("MAIN.PY", File (Some 4) None)])) _ eq_refl
             "MAIN.PY" "proj/MAIN.PY" (Some 4) ".py" 0x1F40D%N (Some 0)).
    simpl. right. left. reflexivity.
  - apply (Hext ["proj"] (Dir (Some [("MAIN.PY", File (Some 4) None)])) _ eq_refl
             "MAIN.PY" "proj/MAIN.PY" (Some 4) ".py" 0x1F40D%N (Some 0)).
    simpl. right. left. reflexivity.
Defined.

(* ================================================================== *)
(** ** Listing the directories in another order *)

Section SortedUnique.
Context {A : Type} (k : A -> key).

Lemma sorted_list_unique s1 :
  forall s2,
    StronglySorted (le_by k) s1 -> StronglySorted (le_by k) s2 ->
    Permutation s1 s2 -> NoDup (map k s1) -> s1 = s2.
Proof.
  induction s1 as [|x r1 IH]; intros s2 S1 S2 Hp Hnd.
  - apply Permutation_nil in Hp. now subst.
  - destruct s2 as [|y r2].
    { symmetry in Hp. apply Permutation_nil in Hp. discriminate. }
    inversion_clear S1 as [|? ? S1' Hx]. inversion_clear S2 as [|? ? S2' Hy].
    inversion_clear Hnd as [|? ? Hnotin Hnd'].
    rewrite Forall_forall in Hx, Hy.
    assert (E : x = y).
    { assert (Hxin : In x (y :: r2))
        by (eapply Permutation_in; [exact Hp | now left]).
      assert (Hyin : In y (x :: r1))
        by (eapply Permutation_in; [symmetry; exact Hp | now left]).
      destruct Hxin as [->|Hxin]; [reflexivity|].
      destruct Hyin as [->|Hyin]; [reflexivity|].
      exfalso. apply Hnotin.
      rewrite (KeyOrder.trichotomy (k x) (k y) (Hy x Hxin) (Hx y Hyin)).
      now apply in_map. }
    subst y. f_equal. apply IH; auto.
    now apply Permutation_cons_inv in Hp.
Qed.

Lemma sorted_unique l1 l2 :
  Permutation l1 l2 -> NoDup (map k l1) -> sorted k l1 = sorted k l2.
Proof.
  intros Hp Hnd. apply sorted_list_unique; try apply sorted_sorted.
  - rewrite (sorted_perm k l1), (sorted_perm k l2). exact Hp.
  - eapply Permutation_NoDup; [|exact Hnd].
    apply Permutation_map. symmetry. apply sorted_perm.
Qed.
End SortedUnique.

Lemma keys_distinct_NoDup ks : keys_distinct ks = true -> NoDup ks.
Proof.
  induction ks as [|a r IH]; simpl; [constructor|].
  rewrite andb_true_iff, negb_true_iff. intros [Hn Hr].
  constructor; [|now apply IH].
  intros Hin. pose proof (proj1 (existsb_false _ r) Hn a Hin) as C.
  rewrite (proj2 (KeyOrder.eqb_eq a a) eq_refl) in C. discriminate.
Qed.

Lemma dir_children_keyed p root_path l :
  dir_children p root_path l
  = if keys_raise l then Raise OSError
    else collect (map snd (sorted fst (map (keyed_of p root_path) l))).
Proof.
  unfold dir_children. destruct (keys_raise l); [reflexivity|].
  rewrite (@sorted_map _ _ entry_key fst (keyed_of p root_path)) by reflexivity.
  now rewrite map_map.
Qed.

Lemma fs_equiv_is_file e1 e2 : fs_equiv e1 e2 -> is_file e1 = is_file e2.
Proof. now inversion 1. Qed.

Lemma fs_equiv_type_test e1 e2 :
  fs_equiv e1 e2 -> type_test_raises e1 = type_test_raises e2.
Proof. now inversion 1. Qed.

Lemma existsb_perm {A : Type} (f : A -> bool) l1 l2 :
  Permutation l1 l2 -> existsb f l1 = existsb f l2.
Proof.
  induction 1 as [|x l l' _ IH|x y l|l l' l'' _ IH1 _ IH2]; simpl.
  - reflexivity.
  - now rewrite IH.
  - now destruct (f x), (f y).
  - now rewrite IH1.
Qed.

Lemma keys_raise_equiv l l' l2 :
  Forall2 (fun a b => fst a = fst b /\ fs_equiv (snd a) (snd b)) l l' ->
  Permutation l' l2 ->
  keys_raise l = keys_raise l2.
Proof.
  intros HF HP. unfold keys_raise. rewrite <- (existsb_perm _ _ _ HP).
  clear HP. induction HF as [|a b r r' [_ He] _ IH]; simpl; [reflexivity|].
  now rewrite IH, (fs_equiv_type_test _ _ He).
Qed.

Lemma fs_equiv_refl e : fs_equiv e e.
Proof.
  induction e as [st c| | | |l IH] using entry_ind; try constructor.
  apply fe_dir with (l1' := l); [|reflexivity].
  induction IH; constructor; auto.
Qed.

(** With distinct keys the order of the listing does not show. *)
Lemma build_tree_listing_order root_path e1 :
  forall e2 rest,
    fs_equiv e1 e2 -> distinct_keys e1 = true ->
    build_tree (root_path ++ rest) root_path e1
    = build_tree (root_path ++ rest) root_path e2.
Proof.
  induction e1 as [st c| | | |l IH] using entry_ind; intros e2 rest Heq Hd;
    inversion Heq as [| | | |? l' l2 HF HP]; subst; try reflexivity.
  rewrite !build_tree_Dir.
  destruct (should_exclude_dir _); [reflexivity|].
  simpl in Hd. apply andb_true_iff in Hd as [Hkeys Hsub].
  rewrite !dir_children_keyed, <- (keys_raise_equiv _ _ _ HF HP).
  destruct (keys_raise l); [reflexivity|].
  assert (E : map (keyed_of (root_path ++ rest) root_path) l
              = map (keyed_of (root_path ++ rest) root_path) l').
  { clear Hkeys HP Heq. induction HF as [|a b r r' [Hn He] HF IHF]; [reflexivity|].
    inversion_clear IH as [|? ? IHa IHr].
    simpl in Hsub. apply andb_true_iff in Hsub as [Hda Hdr].
    simpl. rewrite (IHF IHr Hdr). f_equal.
    unfold keyed_of, entry_key. rewrite <- Hn, <- (fs_equiv_is_file _ _ He).
    f_equal. rewrite join_below. now apply IHa. }
  assert (S : sorted fst (map (keyed_of (root_path ++ rest) root_path) l)
              = sorted fst (map (keyed_of (root_path ++ rest) root_path) l2)).
  { rewrite E. apply sorted_unique; [now apply Permutation_map|].
    rewrite <- E, map_map. now apply keys_distinct_NoDup. }
  now rewrite S.
Qed.

Section SortedRelated.
Context {A B : Type} (ka : A -> key) (kb : B -> key) (Q : A -> B -> Prop).
Hypothesis Q_key : forall a b, Q a b -> ka a = kb b.

Lemma insert_Forall2 x y s s' :
  Q x y -> Forall2 Q s s' -> Forall2 Q (insert ka x s) (insert kb y s').
Proof.
  intros Hxy. induction 1 as [|a b r r' Hab Hr IH]; simpl.
  - repeat constructor. exact Hxy.
  - rewrite (Q_key _ _ Hxy), (Q_key _ _ Hab).
    destruct (key_ltb (kb b) (kb y)); repeat constructor; auto.
Qed.

Lemma sorted_Forall2 l l' :
  Forall2 Q l l' -> Forall2 Q (sorted ka l) (sorted kb l').
Proof.
  induction 1; simpl; [constructor | now apply insert_Forall2].
Qed.
End SortedRelated.

Lemma collect_Forall2 rs rs' :
  Forall2 res_equiv rs rs' ->
  children_rel (Forall2 node_equiv) (collect rs) (collect rs').
Proof.
  induction 1 as [|r r' rest rest' Hr _ IH]; simpl; [constructor|].
  destruct r as [[a|]|e], r' as [[b|]|e']; simpl in Hr; try contradiction;
    simpl; auto;
    destruct (collect rest), (collect rest'); simpl in *; auto.
Qed.

Lemma collect_Permutation rs rs' :
  Permutation rs rs' ->
  children_rel (@Permutation node) (collect rs) (collect rs').
Proof.
  intros Hp.
  destruct (collect rs) as [cs|e] eqn:E1, (collect rs') as [cs'|e'] eqn:E2;
    simpl; auto.
  - apply collect_Ret in E1 as [_ ->]. apply collect_Ret in E2 as [_ ->].
    now apply Permutation_flat_map.
  - apply collect_Ret in E1 as [Hr _].
    assert (Hr' : Forall returns rs') by (eapply Permutation_Forall; eauto).
    rewrite (proj2 (collect_Ret rs' _) (conj Hr' eq_refl)) in E2. discriminate.
  - apply collect_Ret in E2 as [Hr' _].
    assert (Hr : Forall returns rs)
      by (eapply Permutation_Forall; [symmetry|]; eauto).
    rewrite (proj2 (collect_Ret rs _) (conj Hr eq_refl)) in E1. discriminate.
Qed.

(** Whatever the keys, the order of the listing shows in the order of the
    children at most. *)
Lemma build_tree_equiv root_path e1 :
  forall e2 rest,
    fs_equiv e1 e2 ->
    res_equiv (build_tree (root_path ++ rest) root_path e1)
              (build_tree (root_path ++ rest) root_path e2).
Proof.
  induction e1 as [st c| | | |l IH] using entry_ind; intros e2 rest Heq;
    inversion Heq as [| | | |? l' l2 HF HP]; subst.
  - rewrite build_tree_File. destruct (should_exclude_file _); simpl; auto.
    constructor.
  - rewrite build_tree_Other. exact I.
  - rewrite build_tree_unlisted. now destruct (should_exclude_dir _).
  - rewrite build_tree_Denied. exact I.
  - rewrite !build_tree_Dir.
    destruct (should_exclude_dir _); [exact I|].
    rewrite !dir_children_keyed, <- (keys_raise_equiv _ _ _ HF HP).
    destruct (keys_raise l); [exact I|].
    set (kd := keyed_of (root_path ++ rest) root_path).
    assert (F : Forall2 keyed_equiv (map kd l) (map kd l')).
    { clear HP Heq. induction HF as [|a b r r' [Hn He] HF IHF]; [constructor|].
      inversion_clear IH as [|? ? IHa IHr].
      simpl. constructor; [|now apply IHF].
      unfold kd, keyed_of, keyed_equiv, entry_key. simpl.
      rewrite <- Hn, <- (fs_equiv_is_file _ _ He). split; [reflexivity|].
      rewrite join_below. now apply IHa. }
    apply (sorted_Forall2 fst fst keyed_equiv) in F; [|now intros a b [E _]].
    assert (F' : Forall2 res_equiv (map snd (sorted fst (map kd l)))
                                   (map snd (sorted fst (map kd l')))).
    { induction F as [|a b r r' [_ Hab] _ IHF]; simpl; constructor; auto. }
    apply collect_Forall2 in F'.
    assert (P : Permutation (map snd (sorted fst (map kd l')))
                            (map snd (sorted fst (map kd l2)))).
    { apply Permutation_map.
      rewrite (sorted_perm fst (map kd l')), (sorted_perm fst (map kd l2)).
      now apply Permutation_map. }
    apply collect_Permutation in P.
    destruct (collect (map snd (sorted fst (map kd l)))) as [cs1|x1];
      destruct (collect (map snd (sorted fst (map kd l')))) as [cs1'|x1'];
      destruct (collect (map snd (sorted fst (map kd l2)))) as [cs2|x2];
      simpl in F', P |- *; try contradiction; auto.
    destruct cs1 as [|a1 cs1].
    + inversion F'; subst. apply Permutation_nil in P. subst. exact I.
    + destruct cs2 as [|a2 cs2].
      * symmetry in P. apply Permutation_nil in P. subst. inversion F'.
      * simpl. econstructor; eauto.
Qed.

(* ================================================================== *)
(** ** Totals of trees that differ in the order of children *)

Lemma add_totals_assoc a b c :
  add_totals (add_totals a b) c = add_totals a (add_totals b c).
Proof. apply totals_eq; simpl; lia. Qed.

Lemma add_totals_comm a b : add_totals a b = add_totals b a.
Proof. apply totals_eq; simpl; lia. Qed.

Lemma traverse_node_totals n :
  forall t, traverse n t = add_totals t (node_totals n).
Proof.
  induction n as [nm p sz ext ic ln | nm p ch IH] using node_ind; intros t.
  - apply totals_eq; simpl; lia.
  - simpl.
    set (one := {| t_files := 0; t_directories := 1; t_lines := 0; t_size := 0 |}).
    replace {| t_files := t_files t; t_directories := t_directories t + 1;
               t_lines := t_lines t; t_size := t_size t |}
      with (add_totals t one) by (apply totals_eq; simpl; lia).
    generalize one. clear one. revert t.
    induction IH as [|c r Hc _ IHr]; intros t base; simpl; [reflexivity|].
    rewrite Hc.
    replace (add_totals (add_totals t base) (node_totals c))
      with (add_totals (add_totals t (node_totals c)) base)
      by (apply totals_eq; simpl; lia).
    rewrite IHr. apply add_totals_assoc.
Qed.

Lemma calculate_totals_node_totals n : calculate_totals n = node_totals n.
Proof.
  unfold calculate_totals. rewrite traverse_node_totals.
  apply totals_eq; simpl; lia.
Qed.

Lemma node_equiv_totals a :
  forall b, node_equiv a b -> node_totals a = node_totals b.
Proof.
  induction a as [nm p sz ext ic ln | nm p ch IH] using node_ind; intros b Hab;
    inversion Hab as [|? ? ? ch' ch2 HF HP]; subst; [reflexivity|].
  simpl. generalize {| t_files := 0; t_directories := 1; t_lines := 0; t_size := 0 |}.
  intros base. transitivity
    (fold_right (fun c acc => add_totals (node_totals c) acc) base ch').
  - clear HP Hab. induction HF as [|x y r r' Hxy HF IHF]; [reflexivity|].
    inversion_clear IH as [|? ? IHx IHr]. simpl.
    now rewrite (IHx y Hxy), (IHF IHr).
  - clear HF Hab IH. induction HP; simpl; try congruence.
    rewrite <- !add_totals_assoc. f_equal. apply add_totals_comm.
Qed.

(* ================================================================== *)
(** ** Scanning again *)

Lemma main_retime now1 now2 name_arg root_path fs out :
  retime now2 (main now1 name_arg root_path fs out)
  = main now2 name_arg root_path fs out.
Proof.
  rewrite !main_build. destruct (mkdir_ok out); [|reflexivity].
  destruct (build_tree root_path root_path fs) as [[tree|]|e];
    try reflexivity.
  now destruct (write_ok out).
Qed.

(** C8, as the code has it.  A second run over the same directory tree,
    listed in the same order, gives the same report but for the timestamp.
    When the directories are listed in another order, the totals are the
    same and the trees differ in the order of children at most; and the
    trees are the same when no directory holds two entries of the same kind
    whose names are equal up to case. *)
Theorem rescan_is_deterministic root_path :
  (forall fs now1 now2 name_arg out,
     retime now2 (main now1 name_arg root_path fs out)
     = main now2 name_arg root_path fs out) /\
  (forall fs1 fs2,
     fs_equiv fs1 fs2 ->
     distinct_keys fs1 = true ->
     build_tree root_path root_path fs1 = build_tree root_path root_path fs2 /\
     forall now1 now2 name_arg out,
       retime now2 (main now1 name_arg root_path fs1 out)
       = main now2 name_arg root_path fs2 out) /\
  (forall fs1 fs2 tree1,
     fs_equiv fs1 fs2 ->
     build_tree root_path root_path fs1 = Ret (Some tree1) ->
     exists tree2,
       build_tree root_path root_path fs2 = Ret (Some tree2) /\
       node_equiv tree1 tree2 /\
       calculate_totals tree1 = calculate_totals tree2).
Proof.
  split; [|split].
  - intros. apply main_retime.
  - intros fs1 fs2 Heq Hd.
    assert (E : build_tree root_path root_path fs1
                = build_tree root_path root_path fs2).
    { rewrite (at_root root_path) at 1 3.
      now apply build_tree_listing_order. }
    split; [exact E|].
    intros now1 now2 name_arg out. rewrite main_retime.
    rewrite !main_build. now rewrite E.
  - intros fs1 fs2 tree1 Heq H1.
    pose proof (build_tree_equiv root_path fs1 fs2 [] Heq) as R.
    rewrite <- !(at_root root_path) in R. rewrite H1 in R.
    destruct (build_tree root_path root_path fs2) as [[tree2|]|e];
      simpl in R; try contradiction.
    exists tree2. repeat split; auto.
    rewrite !calculate_totals_node_totals. now apply node_equiv_totals.
Qed.

Lemma rescan_is_deterministic_witness :
  build_tree ["proj"] ["proj"]
    (Dir (Some [("b.py", File (Some 1) None); ("a.py", File (Some 2) None)]))
  = build_tree ["proj"] ["proj"]
    (Dir (Some [("a.py", File (Some 2) None); ("b.py", File (Some 1) None)])) /\
  (exists tree2,
     build_tree ["proj"] ["proj"] twins_listed_upper_first = Ret (Some tree2) /\
     node_equiv
       (DirNode "proj" "proj"
          [FileNode "a.py" "proj/a.py" (Some 1) ".py" 0x1F40D%N (Some 0);
           FileNode "A.py" "proj/A.py" (Some 2) ".py" 0x1F40D%N (Some 0)])
       tree2 /\
     calculate_totals
       (DirNode "proj" "proj"
          [FileNode "a.py" "proj/a.py" (Some 1) ".py" 0x1F40D%N (Some 0);
           FileNode "A.py" "proj/A.py" (Some 2) ".py" 0x1F40D%N (Some 0)])
     = calculate_totals tree2).
Proof.
  destruct (rescan_is_deterministic ["proj"]) as (_ & Hsame & Htotals).
  split.
  - apply (Hsame
             (Dir (Some [("b.py", File (Some 1) None); ("a.py", File (Some 2) None)]))
             (Dir (Some [("a.py", File (Some 2) None); ("b.py", File (Some 1) None)]))).
    + apply fe_dir
        with (l1' := [("b.py", File (Some 1) None); ("a.py", File (Some 2) None)]).
      * repeat constructor.
      * apply perm_swap.
    + reflexivity.
  - apply (Htotals twins_listed_lower_first twins_listed_upper_first).
    + apply fe_dir
        with (l1' := [("a.py", File (Some 1) (Some [])); ("A.py", File (Some 2) (Some []))]).
      * repeat constructor.
      * apply perm_swap.
    + reflexivity.
Defined.

(** C8, as the claim has it, fails: a directory that holds [a.py] and
    [A.py] gives two different trees when it is listed in two orders. *)
Lemma rescan_order_shows :
  fs_equiv twins_listed_lower_first twins_listed_upper_first /\
  build_tree ["proj"] ["proj"] twins_listed_lower_first
  = Ret (Some (DirNode "proj" "proj"
          [FileNode "a.py" "proj/a.py" (Some 1) ".py" 0x1F40D%N (Some 0);
           FileNode "A.py" "proj/A.py" (Some 2) ".py" 0x1F40D%N (Some 0)])) /\
  build_tree ["proj"] ["proj"] twins_listed_upper_first
  = Ret (Some (DirNode "proj" "proj"
          [FileNode "A.py" "proj/A.py" (Some 2) ".py" 0x1F40D%N (Some 0);
           FileNode "a.py" "proj/a.py" (Some 1) ".py" 0x1F40D%N (Some 0)])) /\
  build_tree ["proj"] ["proj"] twins_listed_lower_first
  <> build_tree ["proj"] ["proj"] twins_listed_upper_first.
Proof.
  split; [|split; [|split]].
  - apply fe_dir
      with (l1' := [("a.py", File (Some 1) (Some [])); ("A.py", File (Some 2) (Some []))]).
    + repeat constructor.
    + apply perm_swap.
  - reflexivity.
  - reflexivity.
  - intros C. vm_compute in C. discriminate C.
Qed.

(* ================================================================== *)
(** ** When the scan is aborted *)

Lemma collect_Raise_In rs x : collect rs = Raise x -> In (Raise x) rs.
Proof.
  induction rs as [|r rest IH]; simpl; [discriminate|].
  destruct r as [o|e]; simpl.
  - destruct (collect rest) as [cs|e']; simpl; [discriminate|].
    intros [= ->]. right. now apply IH.
  - intros [= ->]. now left.
Qed.

Lemma forallb_false_In {A : Type} (f : A -> bool) l :
  forallb f l = false -> exists x, In x l /\ f x = false.
Proof.
  induction l as [|a r IH]; simpl; [discriminate|].
  destruct (f a) eqn:E; simpl.
  - intros H. destruct (IH H) as (x & Hx & Hf). exists x. auto.
  - intros _. exists a. auto.
Qed.

Lemma scan_ok_returns root_path rest e :
  scan_ok (path_name (root_path ++ rest)) e = true ->
  returns (build_tree (root_path ++ rest) root_path e).
Proof.
  intros H. destruct (build_tree_scan root_path e rest H) as (r & Hb & _).
  now exists r.
Qed.

Lemma build_tree_raises root_path e :
  forall rest,
    scan_ok (path_name (root_path ++ rest)) e = false ->
    build_tree (root_path ++ rest) root_path e = Raise OSError.
Proof.
  induction e as [st c| | | |l IH] using entry_ind; intros rest Hscan;
    try discriminate.
  - rewrite build_tree_unlisted. simpl in Hscan. now rewrite Hscan.
  - apply build_tree_Denied.
  - rewrite build_tree_Dir. simpl in Hscan.
    apply orb_false_iff in Hscan as [Hex Hall]. rewrite Hex.
    rewrite Forall_forall in IH.
    assert (Hchild : forall nc, In nc l ->
              build_tree (joinpath (root_path ++ rest) (fst nc)) root_path (snd nc)
              = Raise OSError \/
              returns (build_tree (joinpath (root_path ++ rest) (fst nc))
                                  root_path (snd nc))).
    { intros nc Hin. rewrite join_below.
      destruct (scan_ok (fst nc) (snd nc)) eqn:E.
      - right. apply scan_ok_returns.
        rewrite <- join_below, path_name_join. exact E.
      - left. apply (IH nc Hin).
        rewrite <- join_below, path_name_join. exact E. }
    unfold dir_children. destruct (keys_raise l); [reflexivity|].
    destruct (collect _) as [cs|x] eqn:E; simpl.
    + exfalso. apply collect_Ret in E as [Hret _].
      rewrite Forall_forall in Hret.
      destruct (forallb_false_In _ _ Hall) as (nc & Hin & Hbad).
      assert (Hr : returns (build_tree (joinpath (root_path ++ rest) (fst nc))
                                        root_path (snd nc))).
      { apply Hret. apply in_map_iff. exists nc. split; [reflexivity|].
        now apply sorted_In. }
      destruct Hr as [r Hr]. rewrite join_below in Hr.
      rewrite (IH nc Hin (rest ++ [fst nc])) in Hr; [discriminate|].
      rewrite <- join_below, path_name_join. exact Hbad.
    + apply collect_Raise_In in E. apply in_map_iff in E as (nc & Hg & Hin).
      apply sorted_In in Hin.
      destruct (Hchild nc Hin) as [Hr|[r Hr]]; congruence.
Qed.

Lemma build_tree_Raise_iff root_path rest e x :
  build_tree (root_path ++ rest) root_path e = Raise x <->
  scan_ok (path_name (root_path ++ rest)) e = false /\ x = OSError.
Proof.
  split.
  - intros H. destruct (scan_ok _ e) eqn:E.
    + destruct (scan_ok_returns root_path rest e E) as [r Hr]. congruence.
    + rewrite (build_tree_raises root_path e rest E) in H.
      injection H as <-. auto.
  - intros [E ->]. now apply build_tree_raises.
Qed.

Lemma excluded_dir_nothing root_path rest listing :
  should_exclude_dir (path_name (root_path ++ rest)) = true ->
  build_tree (root_path ++ rest) root_path (Dir listing) = Ret None.
Proof.
  intros Hex. destruct listing as [l|].
  - now rewrite build_tree_Dir, Hex.
  - now rewrite build_tree_unlisted, Hex.
Qed.

(** What [main] does by what the scan of the root does. *)
Lemma main_cases now name_arg root_path fs out :
  scan_ok (path_name root_path) fs = true ->
  mkdir_ok out = true ->
  (has_included_file (path_name root_path) fs = false /\
   main now name_arg root_path fs out = Ret (1, None)) \/
  (has_included_file (path_name root_path) fs = true /\
   write_ok out = true /\
   exists rep, main now name_arg root_path fs out = Ret (0, Some rep)) \/
  (has_included_file (path_name root_path) fs = true /\
   write_ok out = false /\
   main now name_arg root_path fs out = Raise OSError).
Proof.
  intros Hok Hmk. rewrite main_build, Hmk.
  rewrite (at_root root_path) in Hok.
  destruct (build_tree_scan root_path fs [] Hok) as (r & Hb & Hiff).
  rewrite <- (at_root root_path) in Hb, Hiff. rewrite Hb.
  destruct r as [tree|].
  - assert (Hin : has_included_file (path_name root_path) fs = true).
    { destruct (has_included_file _ fs); [reflexivity|].
      now discriminate (proj2 Hiff eq_refl). }
    destruct (write_ok out).
    + right. left. repeat split; auto. eexists. reflexivity.
    + right. right. auto.
  - left. split; [now apply Hiff | reflexivity].
Qed.

(** X1. The calls that abort the scan.  Below the root, [build_tree]
    raises exactly when the type of the root or of an entry of a directory
    it enters cannot be tested, or such a directory cannot be listed, and
    the exception is [OSError].  A directory that is excluded is never
    listed, but the type of an excluded entry is tested all the same, by
    the sort key.  [main] raises exactly when the directory of the output
    cannot be made, when the scan raises, or when a file is found and the
    report cannot be written. *)
Theorem scan_aborts_iff_call_fails root_path :
  (forall rest e x,
     build_tree (root_path ++ rest) root_path e = Raise x <->
     scan_ok (path_name (root_path ++ rest)) e = false /\ x = OSError) /\
  (forall rest listing,
     should_exclude_dir (path_name (root_path ++ rest)) = true ->
     build_tree (root_path ++ rest) root_path (Dir listing) = Ret None) /\
  (forall rest l n,
     should_exclude_dir (path_name (root_path ++ rest)) = false ->
     In (n, Denied) l ->
     build_tree (root_path ++ rest) root_path (Dir (Some l)) = Raise OSError) /\
  (forall now name_arg fs out x,
     main now name_arg root_path fs out = Raise x <->
     x = OSError /\
     (mkdir_ok out = false \/
      scan_ok (path_name root_path) fs = false \/
      (has_included_file (path_name root_path) fs = true /\
       write_ok out = false))).
Proof.
  split; [|split; [|split]].
  - intros. apply build_tree_Raise_iff.
  - intros. now apply excluded_dir_nothing.
  - intros. eapply denied_entry_raises; eauto.
  - intros now name_arg fs out x.
    destruct (mkdir_ok out) eqn:Hmk.
    + destruct (scan_ok (path_name root_path) fs) eqn:Hok.
      * destruct (main_cases now name_arg root_path fs out Hok Hmk)
          as [(Hin & ->)|[(Hin & Hw & rep & ->)|(Hin & Hw & ->)]].
        -- split; [discriminate|].
           intros (_ & [C|[C|(C & _)]]); congruence.
        -- split; [discriminate|].
           intros (_ & [C|[C|(_ & C)]]); congruence.
        -- split; [intros [= <-]; auto|]. now intros (-> & _).
      * rewrite main_build, Hmk.
        rewrite (at_root root_path) in Hok.
        pose proof (build_tree_raises root_path fs [] Hok) as Hb.
        rewrite <- (at_root root_path) in Hb. rewrite Hb.
        split; [intros [= <-]; auto|]. now intros (-> & _).
    + rewrite main_build, Hmk.
      split; [intros [= <-]; auto|]. now intros (-> & _).
Qed.

Lemma scan_aborts_iff_call_fails_witness :
  build_tree ["proj"] ["proj"]
    (Dir (Some [("a.py", File (Some 1) None);
                ("src", Dir (Some [("locked", Dir None)]))]))
  = Raise OSError /\
  build_tree ["proj"; ".git"] ["proj"] (Dir None) = Ret None /\
  build_tree ["proj"] ["proj"] (Dir (Some [(".git", Denied)])) = Raise OSError.
Proof.
  destruct (scan_aborts_iff_call_fails ["proj"])
    as (Hraise & Hskip & Hdenied & _).
  split; [|split].
  - apply (Hraise []
             (Dir (Some [("a.py", File (Some 1) None);
                         ("src", Dir (Some [("locked", Dir None)]))]))).
    split; reflexivity.
  - apply (Hskip [".git"]). reflexivity.
  - apply (Hdenied [] [(".git", Denied)] ".git").
    + reflexivity.
    + left. reflexivity.
Defined.

(** X2. The exit status.  When the directory of the output cannot be made,
    [main] raises before it scans.  When it can: a root directory whose own
    name is excluded, and a root that is neither a file nor a directory,
    give status 1 and write nothing, whatever is below; and when the scan
    is not aborted, the status is 1, with nothing written, exactly when no
    included file is found, and 0, with the report, exactly when one is
    found and the report can be written. *)
Theorem main_exit_status now name_arg root_path fs out :
  (mkdir_ok out = false ->
   main now name_arg root_path fs out = Raise OSError) /\
  (mkdir_ok out = true ->
   is_dir fs = true -> should_exclude_dir (path_name root_path) = true ->
   main now name_arg root_path fs out = Ret (1, None)) /\
  (mkdir_ok out = true -> fs = Other ->
   main now name_arg root_path fs out = Ret (1, None)) /\
  (mkdir_ok out = true ->
   scan_ok (path_name root_path) fs = true ->
   (main now name_arg root_path fs out = Ret (1, None) <->
    has_included_file (path_name root_path) fs = false) /\
   ((exists rep, main now name_arg root_path fs out = Ret (0, Some rep)) <->
    has_included_file (path_name root_path) fs = true /\ write_ok out = true)).
Proof.
  split; [|split; [|split]].
  - intros Hmk. now rewrite main_build, Hmk.
  - intros Hmk Hdir Hex. rewrite main_build, Hmk.
    destruct fs as [| listing | |]; try discriminate.
    rewrite (at_root root_path) in Hex.
    pose proof (excluded_dir_nothing root_path [] listing Hex) as Hb.
    rewrite <- (at_root root_path) in Hb. now rewrite Hb.
  - intros Hmk ->. rewrite main_build, Hmk.
    rewrite (at_root root_path) at 1. now rewrite build_tree_Other.
  - intros Hmk Hok.
    destruct (main_cases now name_arg root_path fs out Hok Hmk)
      as [(Hin & ->)|[(Hin & Hw & rep & ->)|(Hin & Hw & ->)]]; rewrite Hin.
    + split; split; auto.
      * intros [rep [=]].
      * intros [C _]. discriminate.
    + rewrite Hw. split; split; auto; try discriminate.
      intros _. now exists rep.
    + rewrite Hw. split; split; try discriminate.
      * intros [rep [=]].
      * intros [_ C]. discriminate.
Qed.

Lemma main_exit_status_witness :
  main "2026-01-01T00:00:00" None ["home"; "proj"] small_project
       {| mkdir_ok := false; write_ok := true |}
  = Raise OSError /\
  main "2026-01-01T00:00:00" None ["home"; "build"]
       (Dir (Some [("a.py", File (Some 1) None)])) output_written
  = Ret (1, None) /\
  main "2026-01-01T00:00:00" None ["home"; "gone"] Other output_written
  = Ret (1, None) /\
  (exists rep,
     main "2026-01-01T00:00:00" None ["home"; "proj"] small_project
          output_written
     = Ret (0, Some rep)).
Proof.
  split; [|split; [|split]].
  - apply (proj1 (main_exit_status "2026-01-01T00:00:00" None ["home"; "proj"]
                    small_project {| mkdir_ok := false; write_ok := true |})).
    reflexivity.
  - apply (proj1 (proj2 (main_exit_status "2026-01-01T00:00:00" None
                           ["home"; "build"]
                           (Dir (Some [("a.py", File (Some 1) None)]))
                           output_written)));
      reflexivity.
  - apply (proj1 (proj2 (proj2 (main_exit_status "2026-01-01T00:00:00" None
                                  ["home"; "gone"] Other output_written))));
      reflexivity.
  - apply (proj2 (proj2 (proj2 (proj2
             (main_exit_status "2026-01-01T00:00:00" None
                ["home"; "proj"] small_project output_written)))
             eq_refl eq_refl)).
    split; reflexivity.
Defined.

(* ================================================================== *)
(** ** The tree against the filesystem: nothing excluded, nothing lost *)

Lemma emitted_not_excluded root_path rest e n :
  build_tree (root_path ++ rest) root_path e = Ret (Some n) ->
  if node_is_file n
  then should_exclude_file (node_name n) = false
  else should_exclude_dir (node_name n) = false.
Proof.
  intros H. destruct e as [st c|[l|]| |].
  - rewrite build_tree_File in H.
    destruct (should_exclude_file _) eqn:E; [discriminate|].
    injection H as <-. exact E.
  - apply build_tree_Dir_Some in H as (ch & _ & _ & Hex & ->). exact Hex.
  - rewrite build_tree_unlisted in H.
    destruct (should_exclude_dir _); discriminate.
  - rewrite build_tree_Other in H. discriminate.
  - rewrite build_tree_Denied in H. discriminate.
Qed.

(** X3. No excluded name is in the tree: the name of a file node passes
    [should_exclude_file], so its extension is not a compiled one, and the
    name of a directory node, the root included, passes
    [should_exclude_dir], so it does not start with a dot. *)
Theorem excluded_names_never_emitted root_path fs tree :
  build_tree root_path root_path fs = Ret (Some tree) ->
  forall n, In n (nodes_of tree) ->
    (node_is_file n = true ->
     should_exclude_file (node_name n) = false /\
     mem (node_name n) EXCLUDE_FILES = false /\
     mem (lower (suffix_of_name (node_name n))) BINARY_EXTENSIONS = false) /\
    (node_is_file n = false ->
     should_exclude_dir (node_name n) = false /\
     mem (node_name n) EXCLUDE_DIRS = false /\
     startswith (node_name n) "." = false).
Proof.
  intros H n Hn.
  destruct (emitted_nodes _ _ _ H _ Hn) as (rest & e & _ & Hb).
  apply emitted_not_excluded in Hb.
  split; intros Hkind; rewrite Hkind in Hb; (split; [exact Hb|]).
  - unfold should_exclude_file in Hb.
    destruct (mem (node_name n) EXCLUDE_FILES); [discriminate|].
    split; [reflexivity|].
    now destruct (mem _ BINARY_EXTENSIONS).
  - unfold should_exclude_dir in Hb. now apply orb_false_iff in Hb.
Qed.

Lemma excluded_names_never_emitted_witness :
  (true = true ->
   should_exclude_file "main.py" = false /\
   mem "main.py" EXCLUDE_FILES = false /\
   mem (lower (suffix_of_name "main.py")) BINARY_EXTENSIONS = false) /\
  (true = false ->
   should_exclude_dir "main.py" = false /\
   mem "main.py" EXCLUDE_DIRS = false /\
   startswith "main.py" "." = false).
Proof.
  apply (excluded_names_never_emitted ["home"; "proj"] small_project
           _ eq_refl
           (FileNode "main.py" "proj/src/main.py" (Some 6) ".py"
              0x1F40D%N (Some 3))).
  simpl. right. right. left. reflexivity.
Defined.

Lemma should_count_lines_name p :
  should_count_lines p = should_count_lines [path_name p].
Proof. reflexivity. Qed.

Lemma get_file_icon_name p : get_file_icon p = get_file_icon [path_name p].
Proof. reflexivity. Qed.

(** The node of a file at the end of an included route is in the tree. *)
Lemma included_route_emitted root_path e more e' :
  reaches e more e' ->
  forall rest r st content,
    e' = File st content ->
    build_tree (root_path ++ rest) root_path e = Ret r ->
    route_included (path_name (root_path ++ rest)) more = true ->
    exists tree n,
      r = Some tree /\ In n (nodes_of tree) /\
      build_tree (root_path ++ (rest ++ more)) root_path (File st content)
      = Ret (Some n).
Proof.
  induction 1 as [e|l nm c more e' Hin Hreach IH];
    intros rest r st content -> Hb Hroute.
  - rewrite app_nil_r. simpl in Hroute. apply negb_true_iff in Hroute.
    assert (Hk := Hb). rewrite build_tree_File, Hroute in Hk.
    injection Hk as <-. eexists. eexists.
    split; [reflexivity|]. split; [now left|].
    rewrite Hb. reflexivity.
  - simpl in Hroute. apply andb_true_iff in Hroute as [Hex Hroute].
    apply negb_true_iff in Hex.
    assert (Hk := Hb). rewrite build_tree_Dir, Hex in Hk.
    destruct (dir_children _ _ _) as [children|x] eqn:Hch; [|discriminate].
    assert (Hret : returns (build_tree (root_path ++ (rest ++ [nm])) root_path c)).
    { destruct (dir_children_collect _ _ _ _ Hch) as [_ Hcol].
      apply collect_Ret in Hcol as [Hret _].
      rewrite Forall_forall in Hret. rewrite <- join_below.
      apply (Hret (build_tree (joinpath (root_path ++ rest) nm) root_path c)).
      apply in_map_iff. exists (nm, c). split; [reflexivity|].
      now apply sorted_In. }
    destruct Hret as [rc Hrc].
    assert (Hroute' : route_included (path_name (root_path ++ (rest ++ [nm]))) more
                      = true)
      by (rewrite <- join_below, path_name_join; exact Hroute).
    destruct (IH (rest ++ [nm]) rc st content eq_refl Hrc Hroute')
      as (tc & n & -> & Hn & Hfile).
    assert (Hc : In tc children).
    { apply (dir_children_In _ _ _ _ Hch). exists (nm, c). auto. }
    simpl in Hk. destruct children as [|c0 cs]; [destruct Hc|].
    injection Hk as <-.
    exists (DirNode (path_name (root_path ++ rest))
                    (str_path (rel_components root_path rest)) (c0 :: cs)), n.
    split; [reflexivity|]. split.
    + cbn [nodes_of]. right. apply in_flat_map. exists tc. auto.
    + rewrite <- app_assoc in Hfile. exact Hfile.
Qed.

(** X4. No included file is lost: when the scan returns, every file that
    is not excluded and is reached from the root through directories that
    are not excluded has its node in the tree, under its name and its path
    relative to the parent of the root, with the size [stat] gives, or 0. *)
Theorem included_files_are_emitted root_path fs r more st content :
  build_tree root_path root_path fs = Ret r ->
  reaches fs more (File st content) ->
  route_included (path_name root_path) more = true ->
  exists tree ln,
    r = Some tree /\
    In (FileNode (path_name (root_path ++ more))
                 (str_path (rel_components root_path more))
                 (Some (get_default st 0))
                 (lower (suffix (root_path ++ more)))
                 (get_file_icon (root_path ++ more)) ln)
       (nodes_of tree).
Proof.
  intros Hb Hreach Hroute.
  rewrite (at_root root_path) in Hb at 1.
  rewrite (at_root root_path) in Hroute.
  destruct (included_route_emitted root_path fs more _ Hreach [] r st content
              eq_refl Hb Hroute) as (tree & n & -> & Hn & Hfile).
  change ([] ++ more) with more in Hfile. rewrite build_tree_File in Hfile.
  destruct (should_exclude_file _); [discriminate|].
  injection Hfile as <-. eexists. eexists. split; [reflexivity | exact Hn].
Qed.

Lemma included_files_are_emitted_witness :
  exists tree ln,
    Some (DirNode "proj" "proj"
            [DirNode "src" "proj/src"
               [FileNode "main.py" "proj/src/main.py" (Some 6) ".py"
                  0x1F40D%N (Some 3)];
             FileNode "README.md" "proj/README.md" (Some 9) ".md"
               0x1F4DD%N (Some 1)])
    = Some tree /\
    In (FileNode (path_name (["home"; "proj"] ++ ["src"; "main.py"]))
                 (str_path (rel_components ["home"; "proj"] ["src"; "main.py"]))
                 (Some (get_default (Some 6) 0))
                 (lower (suffix (["home"; "proj"] ++ ["src"; "main.py"])))
                 (get_file_icon (["home"; "proj"] ++ ["src"; "main.py"])) ln)
       (nodes_of tree).
Proof.
  apply (included_files_are_emitted ["home"; "proj"] small_project _
           ["src"; "main.py"] (Some 6) (Some [97; 10; 98; 10; 99; 10]%N)
           eq_refl).
  - eapply reaches_down; [right; right; right; left; reflexivity|].
    eapply reaches_down; [left; reflexivity|]. apply reaches_here.
  - reflexivity.
Defined.

(* ================================================================== *)
(** ** The totals against the filesystem *)

Lemma add_zero_l a : add_totals zero_totals a = a.
Proof. apply totals_eq; simpl; lia. Qed.

Lemma fold_add_base {A : Type} (f : A -> totals) base l :
  fold_right (fun c acc => add_totals (f c) acc) base l
  = add_totals base (sum_totals (map f l)).
Proof.
  induction l as [|a r IH]; simpl.
  - apply totals_eq; simpl; lia.
  - rewrite IH. apply totals_eq; simpl; lia.
Qed.

Lemma sum_totals_app a b :
  sum_totals (a ++ b) = add_totals (sum_totals a) (sum_totals b).
Proof.
  induction a as [|x a IH]; simpl.
  - now rewrite add_zero_l.
  - now rewrite IH, add_totals_assoc.
Qed.

Lemma sum_totals_perm a b :
  Permutation a b -> sum_totals a = sum_totals b.
Proof.
  induction 1; simpl; try congruence.
  rewrite <- !add_totals_assoc. f_equal. apply add_totals_comm.
Qed.

Lemma sum_emitted rs :
  sum_totals (map node_totals (flat_map emitted rs))
  = sum_totals (map outcome_totals rs).
Proof.
  induction rs as [|r rest IH]; simpl; [reflexivity|].
  rewrite map_app, sum_totals_app, IH.
  destruct r as [[n|]|x]; simpl; try reflexivity.
  apply totals_eq; simpl; lia.
Qed.

Lemma node_totals_Dir nm p ch :
  node_totals (DirNode nm p ch)
  = add_totals one_directory (sum_totals (map node_totals ch)).
Proof. simpl. apply fold_add_base. Qed.

Lemma node_files_nonneg n : 0 <= t_files (node_totals n).
Proof.
  induction n as [nm p sz ext ic ln | nm p ch IH] using node_ind.
  - simpl. lia.
  - rewrite node_totals_Dir. simpl.
    induction IH as [|c r Hc _ IHr]; simpl; lia.
Qed.

Lemma sum_files_nonneg ch :
  0 <= t_files (sum_totals (map node_totals ch)).
Proof.
  induction ch as [|c r IH]; simpl; [lia|].
  pose proof (node_files_nonneg c). lia.
Qed.

Lemma build_tree_totals root_path e :
  forall rest,
    let name := path_name (root_path ++ rest) in
    scan_ok name e = true ->
    exists r,
      build_tree (root_path ++ rest) root_path e = Ret r /\
      outcome_totals (Ret r) = fs_totals name e.
Proof.
  induction e as [st c| | | |l IH] using entry_ind; intros rest name Hok.
  - rewrite build_tree_File. fold name. simpl.
    destruct (should_exclude_file name); eexists; (split; [reflexivity|]);
      [reflexivity|].
    simpl. rewrite (should_count_lines_name (root_path ++ rest)). fold name.
    now destruct (should_count_lines [name]).
  - rewrite build_tree_Other. now exists None.
  - rewrite build_tree_unlisted. fold name. simpl in Hok. rewrite Hok.
    now exists None.
  - discriminate.
  - rewrite build_tree_Dir. fold name. simpl in Hok |- *.
    destruct (should_exclude_dir name) eqn:Hex; simpl.
    { now exists None. }
    simpl in Hok. rewrite forallb_forall in Hok. rewrite Forall_forall in IH.
    set (g := fun nc : string * entry =>
                build_tree (joinpath (root_path ++ rest) (fst nc)) root_path (snd nc)).
    assert (Hg : forall nc, In nc l ->
              returns (g nc) /\
              outcome_totals (g nc) = fs_totals (fst nc) (snd nc)).
    { intros nc Hin. unfold g.
      specialize (IH nc Hin (rest ++ [fst nc])). cbv zeta in IH.
      rewrite <- join_below, path_name_join in IH.
      destruct (IH (Hok nc Hin)) as (r & Hr & Ht).
      rewrite Hr. split; [now exists r | exact Ht]. }
    unfold dir_children. rewrite (scan_ok_keys l Hok). fold g.
    set (rs := map g (sorted entry_key l)).
    assert (Hret : Forall returns rs).
    { apply Forall_forall. intros r Hr.
      apply in_map_iff in Hr as (nc & <- & Hin). apply sorted_In in Hin.
      now apply Hg. }
    rewrite (proj2 (collect_Ret rs _) (conj Hret eq_refl)). simpl.
    assert (Hsum : sum_totals (map node_totals (flat_map emitted rs))
                   = fold_right
                       (fun nc acc => add_totals (fs_totals (fst nc) (snd nc)) acc)
                       zero_totals l).
    { rewrite sum_emitted. unfold rs. rewrite map_map.
      rewrite (sum_totals_perm _ (map (fun nc => outcome_totals (g nc)) l))
        by (apply Permutation_map, sorted_perm).
      clear - Hg. induction l as [|nc r IHl]; simpl; [reflexivity|].
      rewrite (proj2 (Hg nc (or_introl eq_refl))).
      f_equal. apply IHl. intros x Hx. apply Hg. now right. }
    rewrite <- Hsum.
    assert (Hall : forall c, In c (flat_map emitted rs) ->
                     1 <= t_files (node_totals c)).
    { intros c Hin. apply in_flat_map in Hin as (r & Hr & Hc).
      apply in_emitted in Hc. subst r.
      apply in_map_iff in Hr as (nc & Hb & _). unfold g in Hb.
      rewrite join_below in Hb.
      destruct (emitted_has_file _ _ _ _ Hb) as (f & Hf & Hfile).
      rewrite <- calculate_totals_node_totals.
      eapply files_positive; eauto. }
    destruct (flat_map emitted rs) as [|c0 cs].
    + exists None. split; reflexivity.
    + eexists. split; [reflexivity|].
      pose proof (Hall c0 (or_introl eq_refl)) as Hpos.
      pose proof (sum_files_nonneg cs) as Hnn.
      cbv beta iota. rewrite node_totals_Dir.
      destruct (t_files (sum_totals (map node_totals (c0 :: cs))) =? 0) eqn:Ez;
        [|reflexivity].
      apply Z.eqb_eq in Ez. simpl in Ez. lia.
Qed.

(** X5. The totals are those of the filesystem: when the directories can
    be listed and the types of their entries tested, the files counted are the files that are not excluded and
    lie below directories that are not excluded, with their sizes (0 when
    [stat] fails) and their line counts (for the files in the policy), and
    the directories counted are the ones that are not excluded and hold
    such a file, the root included. *)
Theorem totals_match_filesystem now name_arg root_path fs :
  scan_ok (path_name root_path) fs = true ->
  (exists r,
     build_tree root_path root_path fs = Ret r /\
     result_totals r = fs_totals (path_name root_path) fs) /\
  (forall out status rep,
     main now name_arg root_path fs out = Ret (status, Some rep) ->
     r_totals rep = fs_totals (path_name root_path) fs).
Proof.
  intros Hok. rewrite (at_root root_path) in Hok.
  destruct (build_tree_totals root_path fs [] Hok) as (r & Hb & Ht).
  rewrite <- (at_root root_path) in Hb, Ht.
  assert (Hr : result_totals r = fs_totals (path_name root_path) fs).
  { rewrite <- Ht. destruct r as [n|]; simpl; [|reflexivity].
    apply calculate_totals_node_totals. }
  split.
  - now exists r.
  - intros out status rep Hm. rewrite main_build, Hb in Hm.
    destruct (mkdir_ok out); [|discriminate].
    destruct r as [tree|]; [|discriminate].
    destruct (write_ok out); [|discriminate].
    injection Hm as _ <-. exact Hr.
Qed.

Lemma totals_match_filesystem_witness :
  {| t_files := 2; t_directories := 2; t_lines := 4; t_size := 15 |}
  = fs_totals (path_name ["home"; "proj"]) small_project.
Proof.
  apply (proj2 (totals_match_filesystem "2026-01-01T00:00:00" None
                  ["home"; "proj"] small_project eq_refl)
           output_written 0
           {| generated_at := "2026-01-01T00:00:00";
              project_name := "proj";
              root := "/home/proj";
              r_totals := {| t_files := 2; t_directories := 2;
                             t_lines := 4; t_size := 15 |};
              r_tree :=
                DirNode "proj" "proj"
                  [DirNode "src" "proj/src"
                     [FileNode "main.py" "proj/src/main.py" (Some 6) ".py"
                        0x1F40D%N (Some 3)];
                   FileNode "README.md" "proj/README.md" (Some 9) ".md"
                     0x1F4DD%N (Some 1)] |}).
  reflexivity.
Defined.

(* ================================================================== *)
(** ** [calculate_totals] level by level *)

(** X6. The totals of a directory node are one directory and the sum of
    the totals of its children, those of a file node its own size and
    lines; so a tree whose root is a directory counts at least one
    directory, the root. *)
Theorem calculate_totals_by_level :
  (forall nm p sz ext ic ln,
     calculate_totals (FileNode nm p sz ext ic ln)
     = {| t_files := 1; t_directories := 0;
          t_lines := get_default ln 0; t_size := get_default sz 0 |}) /\
  (forall nm p ch,
     calculate_totals (DirNode nm p ch)
     = add_totals one_directory (sum_totals (map calculate_totals ch))) /\
  (forall nm p ch, 1 <= t_directories (calculate_totals (DirNode nm p ch))) /\
  (forall n, 0 <= t_files (calculate_totals n) /\
             0 <= t_directories (calculate_totals n)).
Proof.
  assert (Hdir : forall nm p ch,
            calculate_totals (DirNode nm p ch)
            = add_totals one_directory (sum_totals (map calculate_totals ch))).
  { intros nm p ch. rewrite calculate_totals_node_totals, node_totals_Dir.
    do 2 f_equal. apply map_ext. intros c.
    symmetry. apply calculate_totals_node_totals. }
  assert (Hnn : forall n, 0 <= t_files (calculate_totals n) /\
                          0 <= t_directories (calculate_totals n)).
  { induction n as [nm p sz ext ic ln | nm p ch IH] using node_ind.
    - rewrite calculate_totals_node_totals. simpl. lia.
    - rewrite Hdir.
      assert (Hs : 0 <= t_files (sum_totals (map calculate_totals ch)) /\
                   0 <= t_directories (sum_totals (map calculate_totals ch))).
      { induction IH as [|c r [Hf Hd] _ [IHf IHd]]; cbn [map sum_totals fold_right].
        - simpl. lia.
        - fold (sum_totals (map calculate_totals r)). simpl. lia. }
      cbn [add_totals one_directory t_files t_directories]. lia. }
  split; [|split; [exact Hdir|split; [|exact Hnn]]].
  - intros. rewrite calculate_totals_node_totals. reflexivity.
  - intros nm p ch. destruct (Hnn (DirNode nm p ch)) as [_ Hd].
    rewrite Hdir in Hd |- *.
    assert (H : 0 <= t_directories (sum_totals (map calculate_totals ch))).
    { clear Hd. induction ch as [|c r IH]; cbn [map sum_totals fold_right].
      - simpl. lia.
      - fold (sum_totals (map calculate_totals r)).
        destruct (Hnn c). cbn [add_totals t_directories]. lia. }
    cbn [add_totals one_directory t_directories]. lia.
Qed.

(* ================================================================== *)
(** ** The fields of the nodes *)

Lemma string_app_assoc (a b c : string) :
  ((a ++ b) ++ c = a ++ (b ++ c))%string.
Proof. induction a as [|x a IH]; simpl; [reflexivity | now rewrite IH]. Qed.

Lemma concat_snoc sep l x :
  l <> [] ->
  String.concat sep (l ++ [x]) = (String.concat sep l ++ sep ++ x)%string.
Proof.
  induction l as [|a r IH]; intros Hne; [now elim Hne|].
  destruct r as [|b r]; [reflexivity|].
  change (String.concat sep ((a :: b :: r) ++ [x]))
    with (a ++ sep ++ String.concat sep ((b :: r) ++ [x]))%string.
  rewrite IH by discriminate.
  change (String.concat sep (a :: b :: r))
    with (a ++ sep ++ String.concat sep (b :: r))%string.
  now rewrite !string_app_assoc.
Qed.

Lemma child_path_extends root_path rest n :
  root_path <> [] ->
  str_path (rel_components root_path (rest ++ [n]))
  = (str_path (rel_components root_path rest) ++ "/" ++ n)%string.
Proof.
  intros Hne. unfold rel_components.
  destruct root_path as [|a r]; [now elim Hne|].
  set (nm := path_name (a :: r)).
  change (str_path (nm :: rest ++ [n]))
    with (String.concat "/" ((nm :: rest) ++ [n])).
  rewrite concat_snoc by discriminate. reflexivity.
Qed.

(** X7. Below a root that is not the filesystem root, the tree is
    addressed by its paths: the root node carries the name of the root
    directory as its name and as its path, and the path of every child is
    the path of its parent, a slash, and the name of the child. *)
Theorem child_paths_extend_parent root_path fs tree :
  root_path <> [] ->
  build_tree root_path root_path fs = Ret (Some tree) ->
  node_name tree = path_name root_path /\
  node_path tree = path_name root_path /\
  forall nm p ch,
    In (DirNode nm p ch) (nodes_of tree) ->
    forall c, In c ch ->
      node_path c = (p ++ "/" ++ node_name c)%string.
Proof.
  intros Hne H. split; [|split].
  - rewrite (at_root root_path) in H at 1.
    apply build_tree_node in H as (Hn & _). now rewrite <- at_root in Hn.
  - rewrite (at_root root_path) in H at 1.
    apply build_tree_node in H as (_ & Hp & _). rewrite Hp.
    unfold rel_components. destruct root_path; [now elim Hne | reflexivity].
  - intros nm p ch Hin c Hc.
    destruct (emitted_nodes _ _ _ H _ Hin) as (rest & e & _ & Hb).
    assert (Hk := Hb). apply build_tree_node in Hk as (_ & Hp & _).
    simpl in Hp. subst p.
    apply dir_node_from in Hb as (l & _ & Hch & _).
    apply (dir_children_In _ _ _ _ Hch) in Hc as (nc & _ & Hbc).
    apply build_tree_node in Hbc as (Hname & Hpath & _).
    rewrite Hpath, Hname, app_assoc.
    fold (joinpath (root_path ++ rest) (fst nc)). rewrite path_name_join.
    now apply child_path_extends.
Qed.

Lemma child_paths_extend_parent_witness :
  node_name (DirNode "proj" "proj"
               [DirNode "src" "proj/src"
                  [FileNode "main.py" "proj/src/main.py" (Some 6) ".py"
                     0x1F40D%N (Some 3)];
                FileNode "README.md" "proj/README.md" (Some 9) ".md"
                  0x1F4DD%N (Some 1)])
  = path_name ["home"; "proj"] /\
  node_path (FileNode "main.py" "proj/src/main.py" (Some 6) ".py"
               0x1F40D%N (Some 3))
  = ("proj/src" ++ "/" ++ "main.py")%string.
Proof.
  assert (Hne : ["home"; "proj"] <> []) by discriminate.
  destruct (child_paths_extend_parent ["home"; "proj"] small_project _
              Hne eq_refl) as (Hname & _ & Hchild).
  split; [exact Hname|].
  apply (Hchild "src" "proj/src"
           [FileNode "main.py" "proj/src/main.py" (Some 6) ".py"
              0x1F40D%N (Some 3)]).
  - simpl. right. left. reflexivity.
  - left. reflexivity.
Defined.

(** X8. Every file node of an emitted tree has a [size], the one [stat]
    reports or 0, never a missing one; its [icon] is the entry of
    [FILE_ICONS] for its [extension], or the page icon when the table has
    none; and its [lines], when present, is what [count_lines] returns for
    the file. *)
Theorem file_nodes_are_consistent root_path fs tree :
  build_tree root_path root_path fs = Ret (Some tree) ->
  forall nm p sz ext ic ln,
    In (FileNode nm p sz ext ic ln) (nodes_of tree) ->
    exists rest st content,
      reaches fs rest (File st content) /\
      nm = path_name (root_path ++ rest) /\
      sz = Some (get_default st 0) /\
      ic = dict_get FILE_ICONS ext 0x1F4C4%N /\
      (forall k, ln = Some k -> count_lines content = Ret k).
Proof.
  intros H nm p sz ext ic ln Hin.
  destruct (emitted_nodes _ _ _ H _ Hin) as (rest & e & Hreach & Hb).
  apply file_node_from in Hb
    as (st & content & -> & _ & Hnm & _ & -> & -> & -> & ->).
  exists rest, st, content. repeat split; auto.
  - unfold get_file_icon, suffix. now rewrite <- Hnm.
  - intros k. destruct (should_count_lines _); [|discriminate].
    intros [= <-]. now destruct content.
Qed.

Lemma file_nodes_are_consistent_witness :
  exists rest st content,
    reaches small_project rest (File st content) /\
    "main.py" = path_name (["home"; "proj"] ++ rest) /\
    Some 6 = Some (get_default st 0) /\
    0x1F40D%N = dict_get FILE_ICONS ".py" 0x1F4C4%N /\
    (forall k, Some 3 = Some k -> count_lines content = Ret k).
Proof.
  apply (file_nodes_are_consistent ["home"; "proj"] small_project _ eq_refl
           "main.py" "proj/src/main.py" (Some 6) ".py" 0x1F40D%N (Some 3)).
  simpl. right. right. left. reflexivity.
Defined.

(* ================================================================== *)
(** ** More on [count_lines] *)

Lemma iter_lines_from_nonempty t :
  forall cur, cur <> [] \/ t <> [] -> iter_lines_from cur t <> [].
Proof.
  induction t as [|c r IH]; intros cur H.
  - destruct H as [H|H]; [|now elim H]. simpl. destruct cur; [now elim H|].
    discriminate.
  - cbn [iter_lines_from].
    destruct (c =? LF)%N; [discriminate|].
    destruct (c =? CR)%N.
    + destruct r as [|c' r']; [discriminate|].
      destruct (c' =? LF)%N; discriminate.
    + apply IH. left. discriminate.
Qed.

(** X9. [count_lines] never raises and never returns a negative number;
    it returns 0 exactly for a file that cannot be read and for a file whose
    decoded text is empty (an empty file, or one that holds nothing but
    bytes the decoder drops), so a decoded text that is not empty has at
    least one line. *)
Theorem count_lines_zero_iff content :
  (exists k, count_lines content = Ret k /\ 0 <= k) /\
  (count_lines content = Ret 0 <-> content = None \/ content = Some []).
Proof.
  destruct content as [t|]; unfold count_lines; simpl.
  - rewrite sum_ones_length. split.
    + eexists. split; [reflexivity | lia].
    + split.
      * intros [= H]. right. f_equal.
        destruct t as [|c r]; [reflexivity|]. exfalso.
        assert (Hne : iter_lines (c :: r) <> [])
          by (apply iter_lines_from_nonempty; right; discriminate).
        destruct (iter_lines (c :: r)); [now elim Hne|].
        simpl List.length in H. lia.
      * intros [H|[= ->]]; [discriminate | reflexivity].
  - split; [exists 0; split; [reflexivity | lia]|].
    split; auto.
Qed.

Lemma terminators_newline_appended n :
  forall t b,
    (List.length t <= n)%nat ->
    tail_open b t = true ->
    terminators (t ++ [LF]) = terminators t + 1.
Proof.
  induction n as [|n IH]; intros t b Hlen Hopen.
  - destruct t; [reflexivity | simpl in Hlen; lia].
  - destruct t as [|c r]; [reflexivity|].
    simpl in Hlen. cbn [app terminators]. cbn [tail_open] in Hopen.
    unfold is_terminator in Hopen.
    destruct (c =? LF)%N; cbn [orb negb] in Hopen.
    { rewrite (IH r false) by (auto; lia). lia. }
    destruct (c =? CR)%N; cbn [orb negb] in Hopen.
    + destruct r as [|c' r']; [discriminate|].
      cbn [app]. cbn [tail_open] in Hopen. unfold is_terminator in Hopen.
      simpl in Hlen.
      destruct (c' =? LF)%N eqn:E'.
      * cbn [orb negb] in Hopen. rewrite (IH r' false) by (auto; lia). lia.
      * change (c' :: r' ++ [LF]) with ((c' :: r') ++ [LF]).
        rewrite (IH (c' :: r') false); [lia | simpl; lia |].
        cbn [tail_open]. unfold is_terminator. now rewrite E'.
    + now rewrite (IH r true) by (auto; lia).
Qed.

Lemma unterminated_tail_newline t : unterminated_tail (t ++ [LF]) = false.
Proof. unfold unterminated_tail. now rewrite rev_app_distr. Qed.

(** X10. Writing the missing newline at the end of a file does not change
    its line count: a text that is not empty and does not end in a line
    terminator counts as many lines as the same text followed by
    ['\n']. *)
Theorem final_newline_is_optional t :
  unterminated_tail t = true ->
  count_lines (Some (t ++ [LF])) = count_lines (Some t).
Proof.
  intros Hopen. rewrite !count_lines_value.
  rewrite unterminated_tail_newline, Hopen. f_equal.
  rewrite unterminated_tail_open in Hopen.
  rewrite (terminators_newline_appended (List.length t) t false (le_n _) Hopen).
  lia.
Qed.

Lemma final_newline_is_optional_witness :
  count_lines (Some ([97; 10; 98]%N ++ [LF]))
  = count_lines (Some [97; 10; 98]%N).
Proof.
  apply (final_newline_is_optional [97; 10; 98]%N). reflexivity.
Defined.

Lemma tail_open_crlf t : forall b, tail_open b (to_crlf t) = tail_open b t.
Proof.
  induction t as [|c r IH]; intros b; [reflexivity|].
  unfold to_crlf. cbn [flat_map]. fold (to_crlf r).
  destruct (c =? LF)%N eqn:E.
  - apply N.eqb_eq in E. subst c. cbn [app tail_open]. apply IH.
  - cbn [app tail_open]. apply IH.
Qed.

Lemma terminators_crlf t :
  Forall (fun c => c <> CR) t -> terminators (to_crlf t) = terminators t.
Proof.
  induction 1 as [|c r Hc _ IH]; [reflexivity|].
  unfold to_crlf. cbn [flat_map]. fold (to_crlf r).
  destruct (c =? LF)%N eqn:E.
  - apply N.eqb_eq in E. subst c. cbn [app]. simpl terminators at 1.
    cbn [terminators]. simpl (LF =? LF)%N. cbv iota. now rewrite IH.
  - cbn [app terminators]. rewrite E.
    apply N.eqb_neq in Hc. rewrite Hc. exact IH.
Qed.

(** X11. The line count does not depend on the line-ending convention: a
    text without ['\r'] and the same text with every ['\n'] written as
    ['\r\n'] count the same number of lines. *)
Theorem crlf_counts_like_lf t :
  Forall (fun c => c <> CR) t ->
  count_lines (Some (to_crlf t)) = count_lines (Some t).
Proof.
  intros H. rewrite !count_lines_value.
  now rewrite !unterminated_tail_open, tail_open_crlf, terminators_crlf.
Qed.

Lemma crlf_counts_like_lf_witness :
  count_lines (Some (to_crlf [97; 10; 10; 98]%N))
  = count_lines (Some [97; 10; 10; 98]%N).
Proof.
  apply (crlf_counts_like_lf [97; 10; 10; 98]%N).
  repeat constructor; discriminate.
Defined.

(* ================================================================== *)
(** ** [find_project_root] *)

Lemma path_eqb_refl p : path_eqb p p = true.
Proof. unfold path_eqb. now destruct (list_eq_dec string_dec p p). Qed.

Lemma path_eqb_lengths p q :
  List.length p <> List.length q -> path_eqb p q = false.
Proof.
  intros H. unfold path_eqb.
  destruct (list_eq_dec string_dec p q) as [->|_]; [now elim H | reflexivity].
Qed.

Lemma parent_firstn (start : path) n :
  (n < List.length start)%nat ->
  parent (firstn (S n) start) = firstn n start.
Proof. intros H. unfold parent. now apply removelast_firstn. Qed.

Section FindRoot.
Variable exists_ : path -> bool.
Variable start : path.

Lemma find_loop_spec n :
  forall fuel,
    (n <= List.length start)%nat -> (n < fuel)%nat ->
    (exists k,
       (1 <= k <= n)%nat /\
       find_loop exists_ fuel (firstn n start) = Some (Some (firstn k start)) /\
       has_marker exists_ (firstn k start) = true /\
       forall j, (k < j <= n)%nat ->
                 has_marker exists_ (firstn j start) = false) \/
    (find_loop exists_ fuel (firstn n start) = Some None /\
     forall j, (1 <= j <= n)%nat ->
               has_marker exists_ (firstn j start) = false).
Proof.
  induction n as [|n IH]; intros fuel Hn Hfuel.
  - right. destruct fuel as [|fuel]; [lia|]. simpl.
    split; [reflexivity | intros j Hj; lia].
  - destruct fuel as [|fuel]; [lia|]. cbn [find_loop].
    rewrite parent_firstn by lia.
    rewrite path_eqb_lengths
      by (rewrite !firstn_length_le by lia; lia).
    destruct (has_marker exists_ (firstn (S n) start)) eqn:Hm.
    + left. exists (S n).
      split; [lia|]. split; [reflexivity|]. split; [exact Hm|].
      intros j Hj. lia.
    + destruct (IH fuel ltac:(lia) ltac:(lia))
        as [(k & Hk & Hloop & Hmk & Hnone)|(Hloop & Hnone)].
      * left. exists k.
        split; [lia|]. split; [exact Hloop|]. split; [exact Hmk|].
        intros j Hj. destruct (Nat.eq_dec j (S n)) as [->|Hne]; [exact Hm|].
        apply Hnone. lia.
      * right. split; [exact Hloop|].
        intros j Hj. destruct (Nat.eq_dec j (S n)) as [->|Hne]; [exact Hm|].
        apply Hnone. lia.
Qed.

(** X12. [find_project_root] returns the nearest directory, among
    [start_path] and the directories above it, that holds one of the
    markers, the filesystem root left out; when none does, it returns
    [start_path] itself.  So the result is [start_path] or a directory
    above it, and a marker that lies in the filesystem root counts for
    nothing. *)
Theorem find_project_root_nearest :
  let r := find_project_root exists_ start in
  ((exists k,
      (1 <= k <= List.length start)%nat /\
      r = firstn k start /\
      has_marker exists_ r = true /\
      forall j, (k < j <= List.length start)%nat ->
                has_marker exists_ (firstn j start) = false) \/
   (r = start /\
    forall j, (1 <= j <= List.length start)%nat ->
              has_marker exists_ (firstn j start) = false)) /\
  (exists rest, start = r ++ rest) /\
  (r = [] -> start = []).
Proof.
  intros r. subst r. unfold find_project_root.
  destruct (find_loop_spec (List.length start) (S (List.length start))
              (le_n _) (Nat.lt_succ_diag_r _))
    as [(k & Hk & Hloop & Hmk & Hnone)|(Hloop & Hnone)];
    rewrite firstn_all in Hloop; rewrite Hloop.
  - split; [|split].
    + left. exists k. auto.
    + exists (skipn k start). symmetry. apply firstn_skipn.
    + intros E. apply (f_equal (@List.length string)) in E.
      rewrite firstn_length_le in E by lia. simpl in E. lia.
  - split; [|split].
    + right. auto.
    + exists []. now rewrite app_nil_r.
    + auto.
Qed.
End FindRoot.

Example find_project_root_example :
  find_project_root
    (fun p => path_eqb p ["home"; "me"; "proj"; "pubspec.yaml"]
              || path_eqb p [".git"])
    ["home"; "me"; "proj"; "lib"; "src"]
  = ["home"; "me"; "proj"] /\
  find_project_root (fun p => path_eqb p [".git"]) ["home"; "me"]
  = ["home"; "me"].
Proof. split; reflexivity. Qed.

(* ================================================================== *)
(** ** Every node is counted once *)

Lemma filter_split_length {A : Type} (f : A -> bool) l :
  (List.length (filter f l) + List.length (filter (fun x => negb (f x)) l)
   = List.length l)%nat.
Proof.
  induction l as [|a r IH]; simpl; [reflexivity|].
  destruct (f a); simpl; lia.
Qed.

Lemma sumZ_nonneg l : Forall (fun z => 0 <= z) l -> 0 <= sumZ l.
Proof. induction 1; simpl; lia. Qed.

(** X13. Files and directories together are all the nodes: in the totals
    of any tree, [files + directories] is the number of nodes of the tree;
    and the totals of an emitted tree have [lines >= 0]. *)
Theorem totals_count_every_node :
  (forall tree,
     t_files (calculate_totals tree) + t_directories (calculate_totals tree)
     = Z.of_nat (List.length (nodes_of tree))) /\
  (forall root_path fs tree,
     build_tree root_path root_path fs = Ret (Some tree) ->
     0 <= t_lines (calculate_totals tree)).
Proof.
  split.
  - intros tree. unfold calculate_totals. rewrite traverse_tally, tally_sums.
    cbn [t_files t_directories zero_totals].
    rewrite <- (filter_split_length node_is_file (nodes_of tree)). lia.
  - intros root_path fs tree H. unfold calculate_totals.
    rewrite traverse_tally, tally_sums. cbn [t_lines zero_totals].
    assert (Hnn : 0 <= sumZ (map node_lines (filter node_is_file (nodes_of tree)))).
    { apply sumZ_nonneg. apply Forall_forall. intros z Hz.
      apply in_map_iff in Hz as (n & <- & Hn). apply filter_In in Hn as [Hn Hfile].
      destruct n as [nm p sz ext ic ln|]; [|discriminate].
      destruct (emitted_nodes _ _ _ H _ Hn) as (rest & e & _ & Hb).
      apply file_node_from in Hb as (st & c & _ & _ & _ & _ & _ & _ & _ & ->).
      simpl. destruct (should_count_lines _); simpl; [|lia].
      destruct c; [rewrite sum_ones_length|]; lia. }
    lia.
Qed.

Lemma totals_count_every_node_witness :
  0 <= t_lines (calculate_totals
                  (DirNode "proj" "proj"
                     [DirNode "src" "proj/src"
                        [FileNode "main.py" "proj/src/main.py" (Some 6) ".py"
                           0x1F40D%N (Some 3)];
                      FileNode "README.md" "proj/README.md" (Some 9) ".md"
                        0x1F4DD%N (Some 1)])).
Proof.
  apply (proj2 totals_count_every_node ["home"; "proj"] small_project).
  reflexivity.
Defined.
